(** * inpokedex backend: the translation cache and the two catalogue routes

    A shallow embedding of [src/backend/src/app.ts].  The backend relays a
    public creature catalogue: it keeps a table of localized type labels,
    filled once at start-up, and answers two routes by fetching upstream
    payloads and reshaping them.

    The payloads are untyped in the source ([any]), so they are modelled as
    JavaScript values with the language's own rules for property reads,
    truthiness, [||], [?.] and conversion to a property key.  Upstream is a
    function from the requested URL to a payload or a failure.

    The module-level cache and the console are threaded through a small
    state-and-exception monad.  The fetches the source runs in parallel have
    no effect on the module state in the two routes, so their order is
    immaterial there (up to which of several errors is the one logged); in
    the population of the cache the order in which they settle is a
    parameter.  A request is taken to run against one state of
    the cache. *)

From Stdlib Require Import ZArith Ascii String DecimalString DecimalPos.
From stdpp Require Import base option list strings gmap.

Set Warnings "-register-all".

Open Scope Z_scope.
Open Scope string_scope.

(** ** JavaScript values *)

(** The values the program handles: JSON data from upstream, [undefined], and
    the built-in members an object literal inherits ([VNative], named by its
    path).  Numbers are the integers they denote: every number of the
    catalogue's payloads is one, and the embedding is exact on the safe range
    (magnitude below 2^53).  An object is the list of its own properties in
    insertion order. *)
Inductive value : Type :=
| VUndef
| VNull
| VBool (b : bool)
| VNum (n : Z)
| VStr (s : string)
| VArr (elems : list value)
| VObj (fields : list (string * value))
| VNative (path : string).

Inductive error : Type :=
| TypeError     (* a read through undefined or null, a call of a non-function *)
| AxiosError.   (* the upstream call was rejected *)

Inductive result (A : Type) : Type :=
| Ok (a : A)
| Throw (e : error).
Arguments Ok {A} a.
Arguments Throw {A} e.

Definition result_bind {A B} (r : result A) (k : A -> result B) : result B :=
  match r with
  | Ok a => k a
  | Throw e => Throw e
  end.

Declare Scope result_scope.
Delimit Scope result_scope with result.
Notation "'let*' x ':=' r 'in' k" := (result_bind r (fun x => k))
  (at level 10, x name, r at level 100, k at level 200) : result_scope.
Open Scope result_scope.

(** [!!v]: the values that count as true in a condition and under [||]. *)
Definition truthy (v : value) : bool :=
  match v with
  | VUndef | VNull => false
  | VBool b => b
  | VNum n => negb (Z.eqb n 0)
  | VStr s => negb (String.eqb s "")
  | VArr _ | VObj _ | VNative _ => true
  end.

Definition nullish (v : value) : bool :=
  match v with
  | VUndef | VNull => true
  | _ => false
  end.

(** [a || b] *)
Definition js_or (a b : value) : value := if truthy a then a else b.

(** First binding of a key among the own properties of an object. *)
Fixpoint assoc (k : string) (fs : list (string * value)) : option value :=
  match fs with
  | [] => None
  | (k', v) :: fs' => if String.eqb k k' then Some v else assoc k fs'
  end.

(** [v.k] and [v['k']] for the keys the program reads by name.  A read
    through [undefined] or [null] throws; a missing property reads as
    [undefined].  None of the names the program reads is a built-in member
    of an array, a string, a number or a boolean, so on those values the read
    gives [undefined] too.  A built-in is never the subject of such a read:
    it only comes out of a cache lookup, on its way to the response. *)
Definition get_prop (v : value) (k : string) : result value :=
  match v with
  | VUndef | VNull => Throw TypeError
  | VObj fs => Ok (default VUndef (assoc k fs))
  | _ => Ok VUndef
  end.

(** [v?.k] *)
Definition get_opt (v : value) (k : string) : result value :=
  if nullish v then Ok VUndef else get_prop v k.

(** Assignment of one property in an object under construction: an existing
    key keeps its place, a new one goes last. *)
Fixpoint set_field (k : string) (v : value) (fs : list (string * value))
  : list (string * value) :=
  match fs with
  | [] => [(k, v)]
  | (k', v') :: fs' =>
      if String.eqb k k' then (k, v) :: fs' else (k', v') :: set_field k v fs'
  end.

(** Decimal rendering of an integer, as [String(n)] gives it. *)
Definition number_to_string (n : Z) : string :=
  NilZero.string_of_int (Z.to_int n).

Definition nat_to_string (n : nat) : string := number_to_string (Z.of_nat n).

(** The own enumerable properties [{...v}] copies.  The program spreads a
    payload it has read a [types] array from, which makes it an object. *)
Definition spread (v : value) : list (string * value) :=
  match v with
  | VObj fs => fs
  | VArr l => imap (fun i x => (nat_to_string i, x)) l
  | _ => []
  end.

(** [ToString] of a value, which is also its conversion to a property key.
    An object converts through the [toString] it inherits, unless an own
    property of that name hides it: the own property of a JSON object is not
    callable, [valueOf] returns the object, and the conversion throws. *)
Fixpoint to_string (v : value) : result string :=
  match v with
  | VUndef => Ok "undefined"
  | VNull => Ok "null"
  | VBool true => Ok "true"
  | VBool false => Ok "false"
  | VNum n => Ok (number_to_string n)
  | VStr s => Ok s
  | VArr l =>
      (fix join (l : list value) : result string :=
         match l with
         | [] => Ok ""
         | x :: l' =>
             let* sx := (if nullish x then Ok "" else to_string x) in
             match l' with
             | [] => Ok sx
             | _ => let* rest := join l' in Ok (sx +:+ "," +:+ rest)
             end
         end) l
  | VObj fs =>
      match assoc "toString" fs with
      | Some _ => Throw TypeError
      | None => Ok "[object Object]"
      end
  | VNative p => Ok p
  end.

(** [s.split('/')] *)
Fixpoint split_slash (s : string) : list string :=
  match s with
  | EmptyString => [""]
  | String c r =>
      if Ascii.eqb c "/"%char then "" :: split_slash r
      else match split_slash r with
           | h :: t => String c h :: t
           | [] => [String c ""]
           end
  end.

(** ** [parseInt]

    [parseInt(s)] with no radix: leading white space is dropped, then an
    optional sign, then an optional [0x]/[0X] prefix that switches to base
    16; the longest run of digits that follows is the number, and no digit at
    all gives [NaN] ([None]).  Strings are kept as their UTF-8 bytes, so the
    white space beyond ASCII is recognised by its byte sequence.  The result
    is the exact integer, which is what the engine returns on the safe
    range. *)

Definition ascii_space (c : ascii) : bool :=
  let n := N_of_ascii c in
  ((9 <=? n) && (n <=? 13) || (n =? 32))%N.

(* U+00A0 *)
Definition space2 (c1 c2 : ascii) : bool :=
  ((N_of_ascii c1 =? 194) && (N_of_ascii c2 =? 160))%N.

(* U+1680, U+2000..U+200A, U+2028, U+2029, U+202F, U+205F, U+3000, U+FEFF *)
Definition space3 (c1 c2 c3 : ascii) : bool :=
  let a := N_of_ascii c1 in
  let b := N_of_ascii c2 in
  let c := N_of_ascii c3 in
  ((a =? 225) && (b =? 154) && (c =? 128)
   || (a =? 226) && (b =? 128)
      && ((128 <=? c) && (c <=? 138) || (c =? 168) || (c =? 169) || (c =? 175))
   || (a =? 226) && (b =? 129) && (c =? 159)
   || (a =? 227) && (b =? 128) && (c =? 128)
   || (a =? 239) && (b =? 187) && (c =? 191))%N.

Fixpoint trim_start (s : string) : string :=
  match s with
  | EmptyString => s
  | String c1 r1 =>
      if ascii_space c1 then trim_start r1
      else match r1 with
           | EmptyString => s
           | String c2 r2 =>
               if space2 c1 c2 then trim_start r2
               else match r2 with
                    | EmptyString => s
                    | String c3 r3 =>
                        if space3 c1 c2 c3 then trim_start r3 else s
                    end
           end
  end.

Definition digit_value (radix : Z) (c : ascii) : option Z :=
  let n := Z.of_N (N_of_ascii c) in
  let d := if (48 <=? n)%Z && (n <=? 57)%Z then n - 48
           else if (97 <=? n)%Z && (n <=? 122)%Z then n - 87
           else if (65 <=? n)%Z && (n <=? 90)%Z then n - 55
           else radix in
  if (d <? radix)%Z then Some d else None.

Fixpoint leading_digits (radix : Z) (s : string) : list Z :=
  match s with
  | EmptyString => []
  | String c r =>
      match digit_value radix c with
      | Some d => d :: leading_digits radix r
      | None => []
      end
  end.

Definition digits_value (radix : Z) (ds : list Z) : Z :=
  fold_left (fun acc d => acc * radix + d) ds 0.

Definition strip_sign (s : string) : Z * string :=
  match s with
  | String "-" r => (-1, r)
  | String "+" r => (1, r)
  | _ => (1, s)
  end.

Definition strip_hex_prefix (s : string) : Z * string :=
  match s with
  | String "0" (String "x" r) => (16, r)
  | String "0" (String "X" r) => (16, r)
  | _ => (10, s)
  end.

Definition parseInt (s : string) : option Z :=
  let '(sign, s1) := strip_sign (trim_start s) in
  let '(radix, s2) := strip_hex_prefix s1 in
  match leading_digits radix s2 with
  | [] => None
  | ds => Some (sign * digits_value radix ds)
  end.

(** [parseInt(q as string)] on a query parameter: an absent parameter is
    [undefined], which [parseInt] reads as the text "undefined". *)
Definition parseInt_param (q : option string) : option Z :=
  parseInt (default "undefined" q).

(** [parseInt(x)] on any value: the argument is converted to text first,
    and the conversion throws for an object that hides the [toString] it
    inherits. *)
Definition parseInt_value (x : value) : result (option Z) :=
  let* s := to_string x in
  Ok (parseInt s).

(** [n || d] on numbers: [NaN] and zero are false. *)
Definition or_default (n : option Z) (d : Z) : Z :=
  match n with
  | Some z => if Z.eqb z 0 then d else z
  | None => d
  end.

(** ** The translation cache

    [typeKoreanNames] is an object literal used as a table.  Its own
    properties are the stored labels; a read that finds no own property goes
    on to the prototype, which is [Object.prototype] unless an assignment to
    [__proto__] installed another object. *)

Inductive prototype : Type :=
| ObjectPrototype
| NullPrototype
| ValuePrototype (p : value).

Record cache : Type := Cache {
  own : gmap string value;
  proto : prototype
}.

(** [{}] *)
Definition empty_cache : cache := Cache ∅ ObjectPrototype.

Definition object_prototype_keys : list string :=
  ["constructor"; "__defineGetter__"; "__defineSetter__"; "hasOwnProperty";
   "__lookupGetter__"; "__lookupSetter__"; "isPrototypeOf";
   "propertyIsEnumerable"; "toString"; "valueOf"; "__proto__";
   "toLocaleString"].

Definition array_prototype_keys : list string :=
  ["constructor"; "at"; "concat"; "copyWithin"; "fill"; "find"; "findIndex";
   "findLast"; "findLastIndex"; "lastIndexOf"; "pop"; "push"; "reverse";
   "shift"; "unshift"; "slice"; "sort"; "splice"; "includes"; "indexOf";
   "join"; "keys"; "entries"; "values"; "forEach"; "filter"; "flat";
   "flatMap"; "map"; "every"; "some"; "reduce"; "reduceRight";
   "toLocaleString"; "toString"; "toReversed"; "toSorted"; "toSpliced";
   "with"].

Definition mem (k : string) (ks : list string) : bool :=
  existsb (String.eqb k) ks.

(** A read that reaches [Object.prototype]; [receiver_proto] is the prototype
    of the object the read started from, which the [__proto__] getter
    returns. *)
Definition object_prototype_get (receiver_proto : value) (k : string)
  : option value :=
  if String.eqb k "__proto__" then Some receiver_proto
  else if mem k object_prototype_keys
       then Some (VNative ("Object.prototype." +:+ k))
       else None.

(** Own properties of an array: its length and its indices. *)
Definition array_own (l : list value) (k : string) : option value :=
  if String.eqb k "length" then Some (VNum (Z.of_nat (length l)))
  else match List.find (fun i => String.eqb (nat_to_string i) k)
                       (seq 0 (length l)) with
       | Some i => l !! i
       | None => None
       end.

(** What a read finds above the own properties of the cache. *)
Definition inherited (p : prototype) (k : string) : option value :=
  match p with
  | ObjectPrototype => object_prototype_get (VNative "Object.prototype") k
  | NullPrototype => None
  | ValuePrototype (VObj fs) =>
      match assoc k fs with
      | Some v => Some v
      | None => object_prototype_get (VObj fs) k
      end
  | ValuePrototype (VArr l) =>
      match array_own l k with
      | Some v => Some v
      | None =>
          if mem k array_prototype_keys
          then Some (VNative ("Array.prototype." +:+ k))
          else object_prototype_get (VArr l) k
      end
  | ValuePrototype _ => None
  end.

(** [typeKoreanNames[k]] *)
Definition cache_get (c : cache) (k : string) : value :=
  match own c !! k with
  | Some v => v
  | None => default VUndef (inherited (proto c) k)
  end.

(** Whether an assignment to [__proto__] reaches the setter of
    [Object.prototype]: no own property of that name, and none on the way
    up. *)
Definition reaches_proto_setter (c : cache) : bool :=
  match own c !! "__proto__" with
  | Some _ => false
  | None =>
      match proto c with
      | ObjectPrototype => true
      | NullPrototype => false
      | ValuePrototype (VObj fs) =>
          match assoc "__proto__" fs with Some _ => false | None => true end
      | ValuePrototype _ => true
      end
  end.

(** [typeKoreanNames[k] = v].  Every name but [__proto__] becomes an own
    property.  The [__proto__] setter installs an object or [null] as the
    prototype and ignores any other value, a string among them. *)
Definition cache_set (c : cache) (k : string) (v : value) : cache :=
  if String.eqb k "__proto__" && reaches_proto_setter c then
    match v with
    | VObj _ | VArr _ => Cache (own c) (ValuePrototype v)
    | VNull => Cache (own c) NullPrototype
    | _ => c
    end
  else Cache (<[k := v]> (own c)) (proto c).

(** The lookup the spec calls [labelFor]:
    [typeKoreanNames[englishTypeName] || englishTypeName]. *)
Definition labelFor (c : cache) (englishTypeName : value) : result value :=
  let* k := to_string englishTypeName in
  Ok (js_or (cache_get c k) englishTypeName).

(** ** The server: shared state and effects *)

Inductive log_entry : Type :=
| InitStart
| InitDone (stored : nat)
| InitError (e : error)
| ListRequest (offset limit : Z)
| ListError (e : error)
| DetailRequest (url : string)
| DetailError (pokemonId : string) (e : error).

(** The module-level state: the cache and what was written to the console. *)
Record server : Type := Server {
  typeKoreanNames : cache;
  console : list log_entry
}.

(** A computation of the backend: it may read and write the module state and
    it ends with a value or a thrown error.  What it wrote before throwing
    stays written. *)
Definition js (A : Type) : Type := server -> server * result A.

Definition js_ret {A} (a : A) : js A := fun st => (st, Ok a).

Definition js_bind {A B} (m : js A) (k : A -> js B) : js B :=
  fun st =>
    match m st with
    | (st', Ok a) => k a st'
    | (st', Throw e) => (st', Throw e)
    end.

Definition lift {A} (r : result A) : js A := fun st => (st, r).

Definition try_catch {A} (m : js A) (handler : error -> js A) : js A :=
  fun st =>
    match m st with
    | (st', Ok a) => (st', Ok a)
    | (st', Throw e) => handler e st'
    end.

Definition read_cache : js cache := fun st => (st, Ok (typeKoreanNames st)).

Definition write_cache (c : cache) : js unit :=
  fun st => (Server c (console st), Ok tt).

Definition log (entry : log_entry) : js unit :=
  fun st => (Server (typeKoreanNames st) (console st ++ [entry]), Ok tt).

Notation "'let!' x ':=' m 'in' k" := (js_bind m (fun x => k))
  (at level 10, x name, m at level 100, k at level 200) : result_scope.
Notation "m ';;;' k" := (js_bind m (fun _ => k))
  (at level 100, k at level 200, right associativity) : result_scope.

(** [Promise.all] over promises that are already running: every one of them
    runs to its end, in the order the list gives, and what each wrote stays
    written; the outcome is the list of results in the order of the list, or
    the first rejection. *)
Fixpoint promise_all {A} (ps : list (js A)) : js (list A) :=
  fun st =>
    match ps with
    | [] => (st, Ok [])
    | p :: ps' =>
        let '(st1, r) := p st in
        let '(st2, rs) := promise_all ps' st1 in
        (st2, let* a := r in let* l := rs in Ok (a :: l))
    end.

(** The receiver of [.map], [.find]: anything but an array has no such
    method. *)
Definition as_array (v : value) : result (list value) :=
  match v with
  | VArr l => Ok l
  | _ => Throw TypeError
  end.

(** The receiver of [.split]. *)
Definition as_string (v : value) : result string :=
  match v with
  | VStr s => Ok s
  | _ => Throw TypeError
  end.

(** [l.map(f)] for a callback that may throw. *)
Fixpoint array_map (f : value -> result value) (l : list value)
  : result (list value) :=
  match l with
  | [] => Ok []
  | x :: l' =>
      let* y := f x in
      let* ys := array_map f l' in
      Ok (y :: ys)
  end.

(** [l.find(p)]: the first element the predicate accepts, or [undefined]. *)
Fixpoint array_find (p : value -> result bool) (l : list value)
  : result value :=
  match l with
  | [] => Ok VUndef
  | x :: l' =>
      let* b := p x in
      if b then Ok x else array_find p l'
  end.

(** [(name) => name.language.name === 'ko'] *)
Definition is_ko (name : value) : result bool :=
  let* language := get_prop name "language" in
  let* code := get_prop language "name" in
  Ok match code with
     | VStr s => String.eqb s "ko"
     | _ => false
     end.

(** [data.names.find(name => name.language.name === 'ko')?.name] *)
Definition korean_name_of (data : value) : result value :=
  let* names := get_prop data "names" in
  let* l := as_array names in
  let* entry := array_find is_ko l in
  get_opt entry "name".

Definition POKEAPI_BASE_URL : string := "https://pokeapi.co/api/v2".

(** What a route answers: the status and the object given to [res.json]. *)
Record response : Type := Response {
  status : nat;
  body : value
}.

(** The two parameters of a request in the case the cast of the source
    expects: each of them absent or a text. *)
Record query : Type := Query {
  q_offset : option string;
  q_limit : option string
}.

(** [req.query] as the query parser hands it over.  The cast of the source
    is erased when the program is compiled: a parameter is [undefined] when
    absent, a text when given once, and an array or an object when the query
    string repeats or nests it ([?offset=1&offset=2], [?offset[a]=1]). *)
Record request : Type := Request {
  offset_param : value;
  limit_param : value
}.

(** The request whose parameters are absent or texts. *)
Definition request_of (q : query) : request :=
  Request (from_option VStr VUndef (q_offset q))
          (from_option VStr VUndef (q_limit q)).

(** ** The program *)

Section Backend.

(** [axios.get(url)], reduced to the [data] of the response it resolves
    with, or the error it rejects with.  Upstream answers the same URL the
    same way throughout. *)
Variable axios_get : value -> result value.

Definition type_list_url : value :=
  VStr (POKEAPI_BASE_URL +:+ "/type?limit=18").

(** The callback of [types.map] in [loadTypeTranslations]. *)
Definition load_type (type : value) : js unit :=
  let! url := lift (get_prop type "url") in
  let! data := lift (axios_get url) in
  let! koreanName := lift (korean_name_of data) in
  if truthy koreanName then
    let! name := lift (get_prop type "name") in
    let! k := lift (to_string name) in
    let! c := read_cache in
    write_cache (cache_set c k koreanName)
  else js_ret tt.

(** [loadTypeTranslations].  The per-type promises settle in an order the
    program does not control; [settled] gives it.  The function itself
    never rejects. *)
Definition loadTypeTranslations (settled : list value -> list value)
  : js unit :=
  try_catch
    (log InitStart ;;;
     let! data := lift (axios_get type_list_url) in
     let! types := lift (get_prop data "results") in
     let! l := lift (as_array types) in
     let! _ := promise_all (map load_type (settled l)) in
     let! c := read_cache in
     log (InitDone (size (own c))))
    (fun e => log (InitError e)).

(** The identifier of a list entry: the segment before the trailing slash
    of its URL. *)
Definition id_of (pokemonListItem : value) : result value :=
  let* url := get_prop pokemonListItem "url" in
  let* s := as_string url in
  let parts := split_slash s in
  Ok match length parts with
     | S (S n) => default VUndef (VStr <$> parts !! n)
     | _ => VUndef
     end.

(** The localized labels of the list route. *)
Definition type_labels (c : cache) (pokemonData : value)
  : result (list value) :=
  let* types := get_prop pokemonData "types" in
  let* l := as_array types in
  array_map (fun typeInfo =>
               let* type := get_prop typeInfo "type" in
               let* englishTypeName := get_prop type "name" in
               labelFor c englishTypeName) l.

Definition animated_image (pokemonData : value) : result value :=
  let* sprites := get_prop pokemonData "sprites" in
  let* versions := get_prop sprites "versions" in
  if negb (truthy versions) then Ok VNull else
  let* generation := get_prop versions "generation-v" in
  if negb (truthy generation) then Ok VNull else
  let* black_white := get_prop generation "black-white" in
  if negb (truthy black_white) then Ok VNull else
  let* animated := get_prop black_white "animated" in
  if negb (truthy animated) then Ok VNull else
  let* front_default := get_prop animated "front_default" in
  if truthy front_default then Ok front_default else Ok VNull.

Definition default_image (pokemonData : value) : result value :=
  let* sprites := get_prop pokemonData "sprites" in
  let* other := get_prop sprites "other" in
  let* artwork :=
    (if nullish other then Ok VUndef
     else let* official := get_prop other "official-artwork" in
          get_opt official "front_default") in
  if truthy artwork then Ok artwork else get_prop sprites "front_default".

(** The callback of [pokemonListItems.map] in the list route. *)
Definition process_pokemon (pokemonListItem : value) : js value :=
  let! id := lift (id_of pokemonListItem) in
  let! id_text := lift (to_string id) in
  let! pokemonData :=
    lift (axios_get (VStr (POKEAPI_BASE_URL +:+ "/pokemon/" +:+ id_text))) in
  let! speciesData :=
    lift (axios_get
            (VStr (POKEAPI_BASE_URL +:+ "/pokemon-species/" +:+ id_text))) in
  let! localized := lift (korean_name_of speciesData) in
  let! koreanName :=
    lift (if truthy localized then Ok localized
          else get_prop pokemonListItem "name") in
  let! c := read_cache in
  let! types := lift (type_labels c pokemonData) in
  let! animatedImageUrl := lift (animated_image pokemonData) in
  let! defaultImageUrl := lift (default_image pokemonData) in
  js_ret (VObj [("id", id);
                ("name", koreanName);
                ("types", VArr types);
                ("animatedImageUrl", animatedImageUrl);
                ("defaultImageUrl", defaultImageUrl)]).

Definition parse_offset (q : query) : Z :=
  or_default (parseInt_param (q_offset q)) 0.

Definition parse_limit (q : query) : Z :=
  or_default (parseInt_param (q_limit q)) 20.

Definition list_url (offset limit : Z) : string :=
  POKEAPI_BASE_URL +:+ "/pokemon?offset=" +:+ number_to_string offset
    +:+ "&limit=" +:+ number_to_string limit.

(** The answer of the list route on success. *)
Definition page (count : value) (items : list value) : response :=
  Response 200 (VObj [("count", count); ("results", VArr items)]).

Definition list_failure : response :=
  Response 500 (VObj [("message", VStr "Failed to fetch pokemons")]).

(** [GET /api/pokemons] from its log line on, for the offset and the limit
    its first two lines computed. *)
Definition list_answer (offset limit : Z) : js response :=
  log (ListRequest offset limit) ;;;
  try_catch
    (let! listData := lift (axios_get (VStr (list_url offset limit))) in
     let! pokemonListItems := lift (get_prop listData "results") in
     let! items := lift (as_array pokemonListItems) in
     let! processedPokemons := promise_all (map process_pokemon items) in
     let! count := lift (get_prop listData "count") in
     js_ret (page count processedPokemons))
    (fun e => log (ListError e) ;;; js_ret list_failure).

(** [GET /api/pokemons] for a request whose parameters are absent or
    texts. *)
Definition api_pokemons (q : query) : js response :=
  list_answer (parse_offset q) (parse_limit q).

(** The first two lines of the handler, on whatever the query parser hands
    over.  They stand before the [try]. *)
Definition offset_of (req : request) : result Z :=
  let* n := parseInt_value (offset_param req) in
  Ok (or_default n 0).

Definition limit_of (req : request) : result Z :=
  let* n := parseInt_value (limit_param req) in
  Ok (or_default n 20).

(** [GET /api/pokemons], the whole handler: an error thrown by its first two
    lines leaves it as a rejection, with nothing logged and neither of its
    answers sent. *)
Definition list_handler (req : request) : js response :=
  let! offset := lift (offset_of req) in
  let! limit := lift (limit_of req) in
  list_answer offset limit.

(** The labelled types of the detail route. *)
Definition type_pairs (c : cache) (pokemonData : value)
  : result (list value) :=
  let* types := get_prop pokemonData "types" in
  let* l := as_array types in
  array_map (fun typeInfo =>
               let* type := get_prop typeInfo "type" in
               let* englishTypeName := get_prop type "name" in
               let* label := labelFor c englishTypeName in
               Ok (VObj [("englishName", englishTypeName);
                         ("koreanName", label)])) l.

Definition detail_failure (pokemonId : string) : response :=
  Response 500
    (VObj [("message", VStr ("Failed to fetch pokemon " +:+ pokemonId))]).

(** [GET /api/pokemon/:id] *)
Definition api_pokemon (pokemonId : string) : js response :=
  try_catch
    (let pokeApiUrl := POKEAPI_BASE_URL +:+ "/pokemon/" +:+ pokemonId in
     log (DetailRequest pokeApiUrl) ;;;
     let! pokemonData := lift (axios_get (VStr pokeApiUrl)) in
     let! speciesData :=
       lift (axios_get
               (VStr (POKEAPI_BASE_URL +:+ "/pokemon-species/"
                        +:+ pokemonId))) in
     let! localized := lift (korean_name_of speciesData) in
     let! koreanName :=
       lift (if truthy localized then Ok localized
             else get_prop pokemonData "name") in
     let! c := read_cache in
     let! types := lift (type_pairs c pokemonData) in
     js_ret (Response 200
               (VObj (set_field "types" (VArr types)
                        (set_field "name" koreanName
                           (spread pokemonData))))))
    (fun e => log (DetailError pokemonId e) ;;;
              js_ret (detail_failure pokemonId)).

(** The [try] block of the detail route, as a function of the cache it
    reads. *)
Definition detail_body (c : cache) (pokemonId : string) : result response :=
  let* pokemonData :=
    axios_get (VStr (POKEAPI_BASE_URL +:+ "/pokemon/" +:+ pokemonId)) in
  let* speciesData :=
    axios_get
      (VStr (POKEAPI_BASE_URL +:+ "/pokemon-species/" +:+ pokemonId)) in
  let* localized := korean_name_of speciesData in
  let* koreanName :=
    (if truthy localized then Ok localized
     else get_prop pokemonData "name") in
  let* types := type_pairs c pokemonData in
  Ok (Response 200
        (VObj (set_field "types" (VArr types)
                 (set_field "name" koreanName (spread pokemonData))))).

(** What the callback of [loadTypeTranslations] stores for a type: its
    target-locale label, under its name, when that label is truthy. *)
Definition stores (type : value) (k : string) (v : value) : Prop :=
  exists url data name,
    get_prop type "url" = Ok url /\
    axios_get url = Ok data /\
    korean_name_of data = Ok v /\
    truthy v = true /\
    get_prop type "name" = Ok name /\
    to_string name = Ok k.

(** Upstream serves labels that are strings. *)
Definition string_labels : Prop :=
  forall url data v,
    axios_get url = Ok data -> korean_name_of data = Ok v ->
    truthy v = true -> exists s, v = VStr s.

End Backend.

(** ** Vocabulary of the statements *)

(** The result a computation ends with, its writes aside. *)
Definition outcome {A} (m : js A) (st : server) : result A := snd (m st).

Definition is_ok {A} (r : result A) : Prop := exists a, r = Ok a.

Definition failed {A} (r : result A) : Prop := exists e, r = Throw e.

(** A computation that leaves the module state as it found it. *)
Definition read_only {A} (m : js A) : Prop := forall st, fst (m st) = st.

(** The next definitions follow the spec's wording, for the statements to
    compare the program with.

    The value at the end of a path of property names, [undefined] when the
    path breaks off. *)
Fixpoint path_get (v : value) (path : list string) : value :=
  match path with
  | [] => v
  | k :: path' =>
      match get_prop v k with
      | Ok v' => path_get v' path'
      | Throw _ => VUndef
      end
  end.

(** A sprite is present at a path when the value there is truthy: neither
    missing, nor [null], nor empty. *)
Definition present (v : value) : bool := truthy v.

Definition animated_path : list string :=
  ["versions"; "generation-v"; "black-white"; "animated"; "front_default"].

Definition artwork_path : list string :=
  ["other"; "official-artwork"; "front_default"].

Definition animated_choice (sprites : value) : value :=
  let sprite := path_get sprites animated_path in
  if present sprite then sprite else VNull.

Definition default_choice (sprites : value) : value :=
  let artwork := path_get sprites artwork_path in
  if present artwork then artwork else path_get sprites ["front_default"].

(** An entry of a [names] list in a given language, and one in another. *)
Definition has_language (code : string) (entry : value) : Prop :=
  exists language,
    get_prop entry "language" = Ok language /\
    get_prop language "name" = Ok (VStr code).

Definition other_language (entry : value) : Prop :=
  exists language code,
    get_prop entry "language" = Ok language /\
    get_prop language "name" = Ok code /\
    code <> VStr "ko".

(** The localized name a [names] list holds: the [name] of its first entry
    in the target locale, and [undefined] when it has none. *)
Definition first_ko_name (names : list value) (localized : value) : Prop :=
  (exists pre e post,
      names = (pre ++ e :: post)%list /\
      Forall other_language pre /\
      has_language "ko" e /\
      get_prop e "name" = Ok localized) \/
  (Forall other_language names /\ localized = VUndef).

(** The display name: the localized name if it is usable, else the
    fallback. *)
Definition display_name (localized fallback : value) : value :=
  if truthy localized then localized else fallback.

(** The label of the spec's lookup: the one stored for the key, and the key
    itself when none is stored. *)
Definition cached_label (c : cache) (k : string) (key : value) : value :=
  default key (own c !! k).

(** A key for which the cache behaves as a table: the label stored for it
    is usable, and when none is stored the cache inherits nothing of that
    name either. *)
Definition plain_key (c : cache) (k : string) : Prop :=
  match own c !! k with
  | Some v => truthy v = true
  | None => inherited (proto c) k = None
  end.

(** An entry of the detail route's [types] in the spec's words: the upstream
    key paired with its label. *)
Definition localized_pair (c : cache) (typeInfo pair : value) : Prop :=
  exists type key k label,
    get_prop typeInfo "type" = Ok type /\
    get_prop type "name" = Ok key /\
    to_string key = Ok k /\
    pair = VObj [("englishName", key); ("koreanName", label)] /\
    (plain_key c k -> label = cached_label c k key).

(** A primary-detail payload without sprites: the property is missing or
    [null], or the payload is no object at all. *)
Definition without_sprites (pokemonData : value) : Prop :=
  forall sprites,
    get_prop pokemonData "sprites" = Ok sprites -> nullish sprites = true.

Definition nonempty_string (v : value) : Prop :=
  exists s, v = VStr s /\ s <> "".

(** The integers a JavaScript number holds exactly. *)
Definition safe_integer (n : Z) : Prop := - 2 ^ 53 < n < 2 ^ 53.

(** The digits of a decimal numeral, most significant first. *)
Fixpoint uint_digits (d : Decimal.uint) : list Z :=
  match d with
  | Decimal.Nil => []
  | Decimal.D0 d => 0 :: uint_digits d
  | Decimal.D1 d => 1 :: uint_digits d
  | Decimal.D2 d => 2 :: uint_digits d
  | Decimal.D3 d => 3 :: uint_digits d
  | Decimal.D4 d => 4 :: uint_digits d
  | Decimal.D5 d => 5 :: uint_digits d
  | Decimal.D6 d => 6 :: uint_digits d
  | Decimal.D7 d => 7 :: uint_digits d
  | Decimal.D8 d => 8 :: uint_digits d
  | Decimal.D9 d => 9 :: uint_digits d
  end.

(** ** Sample upstreams *)

(** An upstream given by a table from URL to payload; any other request is
    rejected. *)
Definition serve (table : list (string * value)) (url : value) : result value :=
  match url with
  | VStr u =>
      match assoc u table with
      | Some data => Ok data
      | None => Throw AxiosError
      end
  | _ => Throw AxiosError
  end.

Definition name_entry (code label : string) : value :=
  VObj [("language", VObj [("name", VStr code)]); ("name", VStr label)].

Definition reference (name url : string) : value :=
  VObj [("name", VStr name); ("url", VStr url)].

Definition type_slot (name : string) : value :=
  VObj [("slot", VNum 1); ("type", VObj [("name", VStr name)])].

Definition charmander : value :=
  VObj [("id", VNum 4); ("name", VStr "charmander"); ("height", VNum 6);
        ("types", VArr [type_slot "fire"]);
        ("sprites",
         VObj [("front_default", VStr "f4.png");
               ("other",
                VObj [("official-artwork",
                       VObj [("front_default", VStr "art4.png")])]);
               ("versions",
                VObj [("generation-v",
                       VObj [("black-white",
                              VObj [("animated",
                                     VObj [("front_default",
                                            VStr "a4.gif")])])])])])].

Definition squirtle : value :=
  VObj [("id", VNum 7); ("name", VStr "squirtle");
        ("types", VArr [type_slot "water"]);
        ("sprites", VObj [("front_default", VStr "f7.png")])].

Definition first_page : value :=
  VObj [("count", VNum 1302);
        ("results",
         VArr [reference "charmander" "https://pokeapi.co/api/v2/pokemon/4/";
               reference "squirtle" "https://pokeapi.co/api/v2/pokemon/7/"])].

(** A catalogue with two types, one of them with a Korean label, and two
    creatures. *)
Definition catalogue : list (string * value) :=
  [("https://pokeapi.co/api/v2/type?limit=18",
    VObj [("count", VNum 2);
          ("results",
           VArr [reference "fire" "https://pokeapi.co/api/v2/type/10/";
                 reference "water" "https://pokeapi.co/api/v2/type/11/"])]);
   ("https://pokeapi.co/api/v2/type/10/",
    VObj [("names", VArr [name_entry "en" "Fire"; name_entry "ko" "Bulkkot"])]);
   ("https://pokeapi.co/api/v2/type/11/",
    VObj [("names", VArr [name_entry "en" "Water"])]);
   ("https://pokeapi.co/api/v2/pokemon?offset=0&limit=2", first_page);
   ("https://pokeapi.co/api/v2/pokemon?offset=-5&limit=20",
    VObj [("count", VNum 1302); ("results", VArr [])]);
   ("https://pokeapi.co/api/v2/pokemon/4", charmander);
   ("https://pokeapi.co/api/v2/pokemon-species/4",
    VObj [("names", VArr [name_entry "en" "Charmander";
                          name_entry "ko" "Pairi"])]);
   ("https://pokeapi.co/api/v2/pokemon/7", squirtle);
   ("https://pokeapi.co/api/v2/pokemon-species/7",
    VObj [("names", VArr [name_entry "en" "Squirtle"])])].

(** The same catalogue behind an upstream that ignores the page size it is
    asked for. *)
Definition oversupplying : list (string * value) :=
  ("https://pokeapi.co/api/v2/pokemon?offset=0&limit=1", first_page)
    :: catalogue.

(** A creature whose species has a Korean entry with an empty name, and
    whose type bears the name of a member every object inherits; no type
    list is served. *)
Definition oddities : list (string * value) :=
  [("https://pokeapi.co/api/v2/pokemon?offset=0&limit=20",
    VObj [("count", VNum 1);
          ("results",
           VArr [reference "bulbasaur"
                   "https://pokeapi.co/api/v2/pokemon/1/"])]);
   ("https://pokeapi.co/api/v2/pokemon/1",
    VObj [("id", VNum 1); ("name", VStr "bulbasaur");
          ("types", VArr [type_slot "constructor"]);
          ("sprites", VObj [("front_default", VStr "f1.png")])]);
   ("https://pokeapi.co/api/v2/pokemon-species/1",
    VObj [("names", VArr [name_entry "ko" ""])])].

(** The first page with a reference that upstream does not serve. *)
Definition partly_served : list (string * value) :=
  ("https://pokeapi.co/api/v2/pokemon?offset=0&limit=20",
   VObj [("count", VNum 2);
         ("results",
          VArr [reference "charmander" "https://pokeapi.co/api/v2/pokemon/4/";
                reference "missingno" "https://pokeapi.co/api/v2/pokemon/0/"])])
    :: catalogue.

(** A creature served without its species. *)
Definition no_species : list (string * value) :=
  [("https://pokeapi.co/api/v2/pokemon/4", charmander)].

(** The server as the process starts. *)
Definition boot : server := Server empty_cache [].

(** The cache once the catalogue's types are loaded, the later type
    settling first. *)
Definition loaded_cache : cache :=
  typeKoreanNames (fst (loadTypeTranslations (serve catalogue) reverse boot)).

(** The server after a start-up against an upstream without a type list. *)
Definition failed_start : server :=
  fst (loadTypeTranslations (serve oddities) reverse boot).

(** A creature served without [sprites]. *)
Definition ditto : value :=
  VObj [("id", VNum 132); ("name", VStr "ditto");
        ("types", VArr [type_slot "normal"])].

Definition spriteless : list (string * value) :=
  [("https://pokeapi.co/api/v2/pokemon?offset=0&limit=20",
    VObj [("count", VNum 1);
          ("results",
           VArr [reference "ditto"
                   "https://pokeapi.co/api/v2/pokemon/132/"])]);
   ("https://pokeapi.co/api/v2/pokemon/132", ditto);
   ("https://pokeapi.co/api/v2/pokemon-species/132",
    VObj [("names", VArr [name_entry "ko" "Metamong"])])].

(** A [names] entry in the target locale whose [name] is any value. *)
Definition ko_entry (label : value) : value :=
  VObj [("language", VObj [("name", VStr "ko")]); ("name", label)].

(** An upstream that lists a category named [__proto__] whose label is an
    object, and a category whose label is a number. *)
Definition poisoned : list (string * value) :=
  [("https://pokeapi.co/api/v2/type?limit=18",
    VObj [("count", VNum 2);
          ("results",
           VArr [reference "__proto__" "https://pokeapi.co/api/v2/type/1/";
                 reference "five" "https://pokeapi.co/api/v2/type/2/"])]);
   ("https://pokeapi.co/api/v2/type/1/",
    VObj [("names", VArr [ko_entry (VObj [("water", VStr "hacked")])])]);
   ("https://pokeapi.co/api/v2/type/2/",
    VObj [("names", VArr [ko_entry (VNum 5)])])].

Definition poisoned_start : server :=
  fst (loadTypeTranslations (serve poisoned) reverse boot).

(** ** The page that consumes the list route

    The pure parts of [src/frontend/src/App.tsx]: the query its request
    carries, and the update that adds a fetched page to the creatures on
    display. *)

Definition LIMIT : Z := 20.

(** The [params] of the request: [axios] writes each number of the object
    into the query string as [String(n)], and the route reads it back as
    text. *)
Definition request_query (currentPageToFetch : Z) : query :=
  Query (Some (number_to_string (currentPageToFetch * LIMIT)))
        (Some (number_to_string LIMIT)).

(** [a === b] on values read from two places: primitives compare by value,
    objects and arrays by identity, which two separately read values never
    share. *)
Definition strict_eq (a b : value) : bool :=
  match a, b with
  | VUndef, VUndef => true
  | VNull, VNull => true
  | VBool x, VBool y => Bool.eqb x y
  | VNum x, VNum y => Z.eqb x y
  | VStr x, VStr y => String.eqb x y
  | _, _ => false
  end.

(** [l.some(p)] and [l.filter(p)] for a callback that may throw. *)
Fixpoint array_some (p : value -> result bool) (l : list value)
  : result bool :=
  match l with
  | [] => Ok false
  | x :: l' =>
      let* b := p x in
      if b then Ok true else array_some p l'
  end.

Fixpoint array_filter (p : value -> result bool) (l : list value)
  : result (list value) :=
  match l with
  | [] => Ok []
  | x :: l' =>
      let* b := p x in
      let* rest := array_filter p l' in
      Ok (if b then x :: rest else rest)
  end.

(** The updater given to [setPokemons]: the fetched creatures whose [id] is
    not yet on display are appended to those on display. *)
Definition add_new_pokemons (oldPokemons : list value) (newPokemons : value)
  : result (list value) :=
  let* l := as_array newPokemons in
  let* newUniquePokemons :=
    array_filter
      (fun newPoke =>
         let* shown :=
           array_some
             (fun oldPoke =>
                let* old_id := get_prop oldPoke "id" in
                let* new_id := get_prop newPoke "id" in
                Ok (strict_eq old_id new_id))
             oldPokemons in
         Ok (negb shown))
      l in
  Ok (oldPokemons ++ newUniquePokemons)%list.

(** A creature is kept when its [id] differs from the [id] of each one on
    display. *)
Definition differs_from_all (oldPokemons : list value) (newPoke : value)
  : Prop :=
  Forall (fun oldPoke =>
            exists old_id new_id,
              get_prop oldPoke "id" = Ok old_id /\
              get_prop newPoke "id" = Ok new_id /\
              strict_eq old_id new_id = false)
         oldPokemons.

(** An item whose [id] is the given text. *)
Definition has_string_id (item : value) (s : string) : Prop :=
  get_prop item "id" = Ok (VStr s).

(** An entry of the list route's [types]: what the lookup gives for the key
    of the upstream entry. *)
Definition labelled_type (c : cache) (typeInfo label : value) : Prop :=
  exists type key,
    get_prop typeInfo "type" = Ok type /\
    get_prop type "name" = Ok key /\
    labelFor c key = Ok label.

(** A read that does not give an array. *)
Definition not_array (r : result value) : Prop :=
  forall l, r <> Ok (VArr l).

(** Text at which a decimal numeral before it ends: it does not go on with
    a digit, nor with the [x] that would make a leading zero a hexadecimal
    prefix. *)
Definition ends_numeral (rest : string) : bool :=
  match rest with
  | EmptyString => true
  | String c _ =>
      match digit_value 10 c with
      | Some _ => false
      | None => negb (Ascii.eqb c "x"%char) && negb (Ascii.eqb c "X"%char)
      end
  end.

(** A segment of a URL path: text without a slash. *)
Fixpoint no_slash (s : string) : bool :=
  match s with
  | EmptyString => true
  | String c r => negb (Ascii.eqb c "/"%char) && no_slash r
  end.


(** The [src] of the picture of a card:
    [pokemon.animatedImageUrl ? pokemon.animatedImageUrl
                              : pokemon.defaultImageUrl]. *)
Definition image_src (pokemon : value) : result value :=
  let* animated := get_prop pokemon "animatedImageUrl" in
  if truthy animated then get_prop pokemon "animatedImageUrl"
  else get_prop pokemon "defaultImageUrl".

(** The picture of a creature with the given sprites: the animated sprite
    when present, else the artwork when present, else the plain sprite. *)
Definition shown_choice (sprites : value) : value :=
  let sprite := path_get sprites animated_path in
  if present sprite then sprite else default_choice sprites.

(** ** Further sample inputs *)

(** Two types listed, the detail of the first one not served. *)
Definition one_type_down : list (string * value) :=
  [("https://pokeapi.co/api/v2/type?limit=18",
    VObj [("count", VNum 2);
          ("results",
           VArr [reference "water" "https://pokeapi.co/api/v2/type/11/";
                 reference "fire" "https://pokeapi.co/api/v2/type/10/"])]);
   ("https://pokeapi.co/api/v2/type/10/",
    VObj [("names", VArr [name_entry "en" "Fire"; name_entry "ko" "Bulkkot"])])].

(** A reference list without [results], and a species whose [names] is a
    text. *)
Definition malformed : list (string * value) :=
  [("https://pokeapi.co/api/v2/pokemon?offset=0&limit=20",
    VObj [("count", VNum 0)]);
   ("https://pokeapi.co/api/v2/pokemon/4", charmander);
   ("https://pokeapi.co/api/v2/pokemon-species/4",
    VObj [("names", VStr "none")])].

(** A record as the page holds it. *)
Definition card (id name : string) : value :=
  VObj [("id", VStr id); ("name", VStr name); ("types", VArr []);
        ("animatedImageUrl", VNull); ("defaultImageUrl", VStr "f.png")].

Definition shown_cards : list value :=
  [card "1" "Isanghaessi"; card "4" "Pairi"].

Definition fetched_cards : list value :=
  [card "4" "Pairi"; card "7" "Kkobugi"].

(** * Facts *)

Ltac unfold_js :=
  unfold outcome, js_bind, lift, read_cache, write_cache, js_ret, try_catch,
    log;
  cbn [fst snd typeKoreanNames console].

Ltac case_result :=
  match goal with
  | |- context [match ?r with Ok _ => _ | Throw _ => _ end] =>
      let E := fresh "E" in destruct r eqn:E
  | |- context [if truthy ?v then _ else _] =>
      let E := fresh "E" in destruct (truthy v) eqn:E
  end; cbn [fst snd typeKoreanNames console].

(** ** The embedding on small inputs *)

Example split_slash_url :
  split_slash "https://pokeapi.co/api/v2/pokemon/25/"
  = ["https:"; ""; "pokeapi.co"; "api"; "v2"; "pokemon"; "25"; ""].
Proof. reflexivity. Qed.

Example number_to_string_neg : number_to_string (-5) = "-5".
Proof. reflexivity. Qed.

Example to_string_array :
  to_string (VArr [VNum 1; VNull; VStr "a"]) = Ok "1,,a".
Proof. reflexivity. Qed.

Example parseInt_examples :
  map parseInt
      ["42"; "  -7"; "12abc"; "1.9"; "0x1F"; "abc"; ""; "-"; "0x"; "+0"]
  = [Some 42; Some (-7); Some 12; Some 1; Some 31;
     None; None; None; None; Some 0].
Proof. reflexivity. Qed.

Example labelFor_water_empty :
  labelFor empty_cache (VStr "water") = Ok (VStr "water").
Proof. reflexivity. Qed.

Example labelFor_cached :
  labelFor (cache_set empty_cache "fire" (VStr "bul")) (VStr "fire")
  = Ok (VStr "bul").
Proof. vm_compute. reflexivity. Qed.

(** ** Numerals *)

Lemma leading_digits_uint (d : Decimal.uint) :
  leading_digits 10 (NilEmpty.string_of_uint d) = uint_digits d.
Proof.
  induction d; simpl; try reflexivity;
    unfold digit_value; simpl; rewrite IHd; reflexivity.
Qed.

Lemma fold_digits_acc (d : Decimal.uint) (acc : positive) :
  fold_left (fun a x => a * 10 + x) (uint_digits d) (Z.pos acc)
  = Z.pos (Pos.of_uint_acc d acc).
Proof.
  revert acc. induction d; intros acc; simpl; try reflexivity;
    rewrite <- IHd; f_equal; lia.
Qed.

Lemma digits_value_uint (d : Decimal.uint) :
  digits_value 10 (uint_digits d) = Z.of_N (Pos.of_uint d).
Proof.
  unfold digits_value. induction d; simpl; try reflexivity; try assumption;
    apply (fold_digits_acc d).
Qed.

Lemma trim_start_digit (d : Decimal.uint) :
  d <> Decimal.Nil ->
  trim_start (NilEmpty.string_of_uint d) = NilEmpty.string_of_uint d.
Proof.
  intros Hd. destruct d; try congruence; simpl;
    destruct (NilEmpty.string_of_uint d) as [|c2 [|c3 r3]]; reflexivity.
Qed.

Lemma strip_sign_digit (d : Decimal.uint) :
  strip_sign (NilEmpty.string_of_uint d) = (1, NilEmpty.string_of_uint d).
Proof. destruct d; reflexivity. Qed.

Lemma strip_hex_prefix_digit (d : Decimal.uint) :
  strip_hex_prefix (NilEmpty.string_of_uint d)
  = (10, NilEmpty.string_of_uint d).
Proof.
  destruct d as [|d|d|d|d|d|d|d|d|d|d]; try reflexivity;
    destruct d; reflexivity.
Qed.

Lemma nilzero_nonnil (d : Decimal.uint) :
  d <> Decimal.Nil -> NilZero.string_of_uint d = NilEmpty.string_of_uint d.
Proof. destruct d; intros Hd; [congruence | reflexivity ..]. Qed.

Lemma parse_unsigned (sign : Z) (d : Decimal.uint) :
  d <> Decimal.Nil ->
  (let '(radix, s2) := strip_hex_prefix (NilEmpty.string_of_uint d) in
   match leading_digits radix s2 with
   | [] => None
   | ds => Some (sign * digits_value radix ds)
   end) = Some (sign * Z.of_N (Pos.of_uint d)).
Proof.
  intros Hd. rewrite strip_hex_prefix_digit, leading_digits_uint.
  rewrite <- digits_value_uint.
  destruct d; try congruence; reflexivity.
Qed.

Lemma trim_start_minus (r : string) :
  trim_start (String "-" r) = String "-" r.
Proof. destruct r as [|c2 [|c3 r3]]; reflexivity. Qed.

(** [parseInt] reads back the decimal numeral of any integer. *)
Lemma parseInt_number_to_string (n : Z) :
  parseInt (number_to_string n) = Some n.
Proof.
  unfold number_to_string, parseInt.
  destruct n as [|p|p]; [reflexivity| |];
    pose proof (DecimalPos.Unsigned.to_uint_nonnil p) as Hp;
    cbn [Z.to_int NilZero.string_of_int];
    rewrite (nilzero_nonnil _ Hp).
  - rewrite (trim_start_digit _ Hp), strip_sign_digit.
    rewrite (parse_unsigned 1 _ Hp), DecimalPos.Unsigned.of_to.
    reflexivity.
  - rewrite trim_start_minus. cbn [strip_sign].
    rewrite (parse_unsigned (-1) _ Hp), DecimalPos.Unsigned.of_to.
    reflexivity.
Qed.

(** ** Values, names and images *)

Lemma path_get_undef (path : list string) : path_get VUndef path = VUndef.
Proof. destruct path; reflexivity. Qed.

Lemma path_get_falsy (v : value) (k : string) (path : list string) :
  truthy v = false -> path_get v (k :: path) = VUndef.
Proof.
  intros Hv. destruct v; try discriminate; cbn; try reflexivity;
    apply path_get_undef.
Qed.

Lemma get_prop_ok (v : value) (k : string) :
  nullish v = false -> exists w, get_prop v k = Ok w.
Proof. destruct v; try discriminate; intros _; by eexists. Qed.

Lemma truthy_not_nullish (v : value) : truthy v = true -> nullish v = false.
Proof. by destruct v. Qed.

Lemma path_get_step (v w : value) (k : string) (path : list string) :
  get_prop v k = Ok w -> path_get v (k :: path) = path_get w path.
Proof. intros H. cbn [path_get]. by rewrite H. Qed.

(** The chain of [&&] tests of the source finds a sprite exactly when the
    path lookup does. *)
Lemma animated_image_spec (pokemonData sprites : value) :
  get_prop pokemonData "sprites" = Ok sprites ->
  nullish sprites = false ->
  animated_image pokemonData = Ok (animated_choice sprites).
Proof.
  intros Hs Hn. unfold animated_image, animated_choice, animated_path, present.
  rewrite Hs. cbn [result_bind].
  destruct (get_prop_ok sprites "versions" Hn) as [v1 H1].
  rewrite (path_get_step _ _ _ _ H1), H1. cbn [result_bind].
  destruct (truthy v1) eqn:T1; cbn [negb];
    [|by rewrite (path_get_falsy v1 _ _ T1)].
  destruct (get_prop_ok v1 "generation-v" (truthy_not_nullish _ T1)) as [v2 H2].
  rewrite (path_get_step _ _ _ _ H2), H2. cbn [result_bind].
  destruct (truthy v2) eqn:T2; cbn [negb];
    [|by rewrite (path_get_falsy v2 _ _ T2)].
  destruct (get_prop_ok v2 "black-white" (truthy_not_nullish _ T2)) as [v3 H3].
  rewrite (path_get_step _ _ _ _ H3), H3. cbn [result_bind].
  destruct (truthy v3) eqn:T3; cbn [negb];
    [|by rewrite (path_get_falsy v3 _ _ T3)].
  destruct (get_prop_ok v3 "animated" (truthy_not_nullish _ T3)) as [v4 H4].
  rewrite (path_get_step _ _ _ _ H4), H4. cbn [result_bind].
  destruct (truthy v4) eqn:T4; cbn [negb];
    [|by rewrite (path_get_falsy v4 _ _ T4)].
  destruct (get_prop_ok v4 "front_default" (truthy_not_nullish _ T4))
    as [v5 H5].
  rewrite (path_get_step _ _ _ _ H5), H5. cbn [result_bind path_get].
  by destruct (truthy v5).
Qed.

Lemma default_image_spec (pokemonData sprites : value) :
  get_prop pokemonData "sprites" = Ok sprites ->
  nullish sprites = false ->
  default_image pokemonData = Ok (default_choice sprites).
Proof.
  intros Hs Hn. unfold default_image, default_choice, artwork_path, present.
  rewrite Hs. cbn [result_bind].
  destruct (get_prop_ok sprites "other" Hn) as [other Ho].
  destruct (get_prop_ok sprites "front_default" Hn) as [front Hf].
  rewrite (path_get_step _ _ _ _ Ho), (path_get_step _ _ _ _ Hf), Ho.
  cbn [result_bind].
  destruct (nullish other) eqn:No.
  - destruct other; try discriminate; cbn; by rewrite Hf.
  - destruct (get_prop_ok other "official-artwork" No) as [official Hoff].
    rewrite (path_get_step _ _ _ _ Hoff), Hoff. cbn [result_bind].
    unfold get_opt.
    destruct (nullish official) eqn:Noff.
    + destruct official; try discriminate; cbn; by rewrite Hf.
    + destruct (get_prop_ok official "front_default" Noff) as [art Hart].
      rewrite (path_get_step _ _ _ _ Hart), Hart. cbn [result_bind path_get].
      destruct (truthy art); [reflexivity | exact Hf].
Qed.

Lemma animated_image_sprites (pokemonData a : value) :
  animated_image pokemonData = Ok a ->
  exists sprites,
    get_prop pokemonData "sprites" = Ok sprites /\ nullish sprites = false.
Proof.
  unfold animated_image.
  destruct (get_prop pokemonData "sprites") as [sprites|]; [|discriminate].
  cbn [result_bind]. intros H. exists sprites. split; [reflexivity|].
  by destruct sprites.
Qed.

Lemma assoc_set_field (k k' : string) (v : value) (fs : list (string * value)) :
  assoc k' (set_field k v fs)
  = if String.eqb k' k then Some v else assoc k' fs.
Proof.
  induction fs as [|[k0 v0] fs IH]; cbn [set_field assoc].
  - reflexivity.
  - destruct (String.eqb k k0) eqn:E; cbn [assoc].
    + apply String.eqb_eq in E as <-. by destruct (String.eqb k' k).
    + rewrite IH. destruct (String.eqb k' k0) eqn:E0; [|reflexivity].
      apply String.eqb_eq in E0 as ->. by rewrite String.eqb_sym, E.
Qed.

Lemma array_map_Forall2 (f : value -> result value) (l ys : list value) :
  array_map f l = Ok ys -> Forall2 (fun x y => f x = Ok y) l ys.
Proof.
  revert ys. induction l as [|x l IH]; cbn [array_map]; intros ys.
  - intros [= <-]. constructor.
  - destruct (f x) as [y|] eqn:Ey; [|discriminate]. cbn [result_bind].
    destruct (array_map f l) as [ys'|]; [|discriminate]. cbn [result_bind].
    intros [= <-]. constructor; [exact Ey | by apply IH].
Qed.

Lemma is_ko_has_language (entry : value) :
  has_language "ko" entry -> is_ko entry = Ok true.
Proof.
  intros (language & Hl & Hc). unfold is_ko.
  by rewrite Hl; cbn; rewrite Hc.
Qed.

Lemma is_ko_other_language (entry : value) :
  other_language entry -> is_ko entry = Ok false.
Proof.
  intros (language & code & Hl & Hc & Hne). unfold is_ko.
  rewrite Hl; cbn; rewrite Hc; cbn. f_equal.
  destruct code; try reflexivity.
  apply String.eqb_neq. congruence.
Qed.

Lemma array_find_first (pre post : list value) (e : value) :
  Forall other_language pre ->
  has_language "ko" e ->
  array_find is_ko (pre ++ e :: post) = Ok e.
Proof.
  intros Hpre He. induction Hpre as [|x pre Hx _ IH]; cbn [app array_find].
  - by rewrite (is_ko_has_language _ He).
  - by rewrite (is_ko_other_language _ Hx).
Qed.

Lemma array_find_none (names : list value) :
  Forall other_language names -> array_find is_ko names = Ok VUndef.
Proof.
  induction 1 as [|x l Hx _ IH]; cbn [array_find]; [reflexivity|].
  by rewrite (is_ko_other_language _ Hx).
Qed.

Lemma korean_name_of_entry (data : value) (pre post : list value)
      (e name : value) :
  get_prop data "names" = Ok (VArr (pre ++ e :: post)) ->
  Forall other_language pre ->
  has_language "ko" e ->
  get_prop e "name" = Ok name ->
  korean_name_of data = Ok name.
Proof.
  intros Hn Hpre He Hname. unfold korean_name_of. rewrite Hn.
  cbn [result_bind as_array]. rewrite (array_find_first _ _ _ Hpre He).
  cbn [result_bind]. unfold get_opt.
  destruct He as (language & Hl & _). by destruct e.
Qed.

Lemma korean_name_of_none (data : value) (names : list value) :
  get_prop data "names" = Ok (VArr names) ->
  Forall other_language names ->
  korean_name_of data = Ok VUndef.
Proof.
  intros Hn Hall. unfold korean_name_of. rewrite Hn.
  cbn [result_bind as_array]. by rewrite (array_find_none _ Hall).
Qed.

(** The converse: what the search of the source found, in terms of the
    list it went through. *)
Lemma is_ko_inv (entry : value) (b : bool) :
  is_ko entry = Ok b ->
  if b then has_language "ko" entry else other_language entry.
Proof.
  unfold is_ko.
  destruct (get_prop entry "language") as [language|] eqn:E1; [|discriminate].
  cbn [result_bind].
  destruct (get_prop language "name") as [code|] eqn:E2; [|discriminate].
  cbn [result_bind]. intros [= <-].
  destruct code as [| | | |s| | |];
    try (exists language; eexists; split; [exact E1|];
         split; [exact E2 | discriminate]).
  destruct (String.eqb_spec s "ko") as [->|Hne].
  - by exists language.
  - exists language, (VStr s). repeat split; congruence.
Qed.

Lemma array_find_is_ko_inv (names : list value) (found : value) :
  array_find is_ko names = Ok found ->
  (exists pre post,
      names = (pre ++ found :: post)%list /\
      Forall other_language pre /\
      has_language "ko" found) \/
  (Forall other_language names /\ found = VUndef).
Proof.
  induction names as [|x names IH]; cbn [array_find].
  - intros [= <-]. right. by split.
  - destruct (is_ko x) as [b|] eqn:Hb; [|discriminate]. cbn [result_bind].
    apply is_ko_inv in Hb. destruct b.
    + intros [= <-]. left. exists [], names. by repeat split.
    + intros Hfind.
      destruct (IH Hfind) as [(pre & post & -> & Hpre & Hko)|[Hall ->]].
      * left. exists (x :: pre), post. repeat split; [|exact Hko].
        by constructor.
      * right. split; [by constructor | reflexivity].
Qed.

Lemma korean_name_of_inv (data localized : value) :
  korean_name_of data = Ok localized ->
  exists names,
    get_prop data "names" = Ok (VArr names) /\ first_ko_name names localized.
Proof.
  unfold korean_name_of.
  destruct (get_prop data "names") as [v|]; [|discriminate].
  cbn [result_bind].
  destruct v as [| | | | |names| |]; try discriminate.
  cbn [as_array result_bind].
  destruct (array_find is_ko names) as [found|] eqn:Hfind; [|discriminate].
  cbn [result_bind]. intros Hname. exists names. split; [reflexivity|].
  destruct (array_find_is_ko_inv _ _ Hfind)
    as [(pre & post & -> & Hpre & Hko)|[Hall ->]].
  - left. exists pre, found, post. repeat split; try done.
    destruct Hko as (language & Hl & _). by destruct found.
  - right. split; [exact Hall|]. by injection Hname as <-.
Qed.

(** An assignment adds at most the assigned entry and removes none. *)
Lemma cache_set_own_inv (c : cache) (k k' : string) (v v' : value) :
  own (cache_set c k v) !! k' = Some v' ->
  own c !! k' = Some v' \/ (k' = k /\ v' = v).
Proof.
  unfold cache_set.
  destruct (String.eqb k "__proto__" && reaches_proto_setter c).
  - destruct v; cbn [own]; auto.
  - cbn [own]. destruct (decide (k = k')) as [->|Hne].
    + rewrite lookup_insert_eq. intros [= ->]. by right.
    + rewrite lookup_insert_ne by done. by left.
Qed.

Lemma cache_set_own_keeps (c : cache) (k k' : string) (v : value) :
  is_Some (own c !! k') -> is_Some (own (cache_set c k v) !! k').
Proof.
  unfold cache_set.
  destruct (String.eqb k "__proto__" && reaches_proto_setter c).
  - destruct v; cbn [own]; auto.
  - cbn [own]. intros H. destruct (decide (k = k')) as [->|Hne].
    + rewrite lookup_insert_eq. by eexists.
    + by rewrite lookup_insert_ne.
Qed.

Lemma truthy_string_nonempty (s : string) :
  truthy (VStr s) = true -> nonempty_string (VStr s).
Proof.
  cbn. intros H. exists s. split; [reflexivity|]. intros ->. discriminate.
Qed.

(** ** The lookup *)

(** A stored truthy label is what the lookup gives; a key found neither
    among the own entries nor up the prototype chain comes back as it is; a
    key found up the chain gives what is found there. *)
Lemma labelFor_stored (c : cache) (k : string) (v : value) :
  own c !! k = Some v -> truthy v = true -> labelFor c (VStr k) = Ok v.
Proof.
  intros Hk Hv. unfold labelFor, cache_get, js_or. cbn [to_string result_bind].
  rewrite Hk. cbv beta iota. by rewrite Hv.
Qed.

Lemma labelFor_absent (c : cache) (k : string) :
  own c !! k = None -> inherited (proto c) k = None ->
  labelFor c (VStr k) = Ok (VStr k).
Proof.
  intros Hk Hi. unfold labelFor, cache_get, js_or. cbn [to_string result_bind].
  by rewrite Hk, Hi.
Qed.

Lemma labelFor_inherited (c : cache) (k : string) (v : value) :
  own c !! k = None -> inherited (proto c) k = Some v -> truthy v = true ->
  labelFor c (VStr k) = Ok v.
Proof.
  intros Hk Hi Hv. unfold labelFor, cache_get, js_or.
  cbn [to_string result_bind]. rewrite Hk, Hi. cbn. by rewrite Hv.
Qed.

(** Under the prototype of an object literal, the inherited names are
    exactly the members of [Object.prototype]. *)
Lemma inherited_object_prototype (k : string) :
  inherited ObjectPrototype k = None <-> mem k object_prototype_keys = false.
Proof.
  cbn [inherited]. unfold object_prototype_get.
  destruct (String.eqb k "__proto__") eqn:E.
  - apply String.eqb_eq in E as ->. split; discriminate.
  - destruct (mem k object_prototype_keys); split; done.
Qed.

Lemma labelFor_ok_iff (c c' : cache) (key : value) :
  is_ok (labelFor c key) <-> is_ok (labelFor c' key).
Proof.
  unfold labelFor. destruct (to_string key); cbn; split; intros [v Hv];
    try discriminate; by eexists.
Qed.

(** Where the cache behaves as a table, the lookup of the source is the
    lookup of the spec. *)
Lemma labelFor_plain_key (c : cache) (key label : value) :
  labelFor c key = Ok label ->
  exists k,
    to_string key = Ok k /\
    (plain_key c k -> label = cached_label c k key).
Proof.
  unfold labelFor, plain_key, cached_label, cache_get, js_or.
  destruct (to_string key) as [k|]; [|discriminate].
  cbn [result_bind]. intros [= <-]. exists k. split; [reflexivity|].
  destruct (own c !! k) as [v|]; cbn [default from_option].
  - by intros ->.
  - by intros ->.
Qed.

Lemma cache_set_proto (c : cache) (k : string) (v : value) :
  k <> "__proto__" -> proto (cache_set c k v) = proto c.
Proof.
  intros Hk. unfold cache_set.
  apply String.eqb_neq in Hk. by rewrite Hk.
Qed.


(** ** Promises *)

Lemma promise_all_state {A} (ps : list (js A)) (st : server) :
  Forall read_only ps -> fst (promise_all ps st) = st.
Proof.
  induction 1 as [|p ps Hp _ IH]; [reflexivity|].
  cbn [promise_all]. specialize (Hp st).
  destruct (p st) as [st1 r]. cbn [fst] in Hp. subst st1.
  destruct (promise_all ps st) as [st2 rs]. exact IH.
Qed.

Lemma promise_all_ok {A} (ps : list (js A)) (st : server) :
  Forall read_only ps ->
  Forall (fun p => is_ok (outcome p st)) ps ->
  exists l, outcome (promise_all ps) st = Ok l /\
            Forall2 (fun p a => outcome p st = Ok a) ps l.
Proof.
  unfold outcome. induction 1 as [|p ps Hp Hps IH]; intros Hok.
  - exists []. split; [reflexivity | constructor].
  - inversion Hok as [|? ? [a Ha] Hrest]; subst.
    destruct (IH Hrest) as (l & Hl & Hall).
    exists (a :: l). cbn [promise_all].
    specialize (Hp st). unfold outcome in Ha.
    destruct (p st) as [st1 r] eqn:Ep. cbn [fst snd] in *. subst st1 r.
    destruct (promise_all ps st) as [st2 rs]. cbn [snd] in *. subst rs.
    split; [reflexivity|]. constructor; [by rewrite Ep | exact Hall].
Qed.

Lemma promise_all_throw {A} (ps : list (js A)) (p : js A) (st : server)
      (e : error) :
  Forall read_only ps ->
  p ∈ ps ->
  outcome p st = Throw e ->
  exists e', outcome (promise_all ps) st = Throw e'.
Proof.
  unfold outcome. intros Hro Hin Hp. induction Hro as [|p0 ps Hp0 Hps IH].
  - by apply elem_of_nil in Hin.
  - cbn [promise_all]. specialize (Hp0 st).
    destruct (p0 st) as [st1 r] eqn:E0. cbn [fst] in Hp0. subst st1.
    destruct (promise_all ps st) as [st2 rs] eqn:Eps. cbn [snd] in *.
    apply elem_of_cons in Hin as [->|Hin].
    + rewrite E0 in Hp. cbn [snd] in Hp. subst r. by exists e.
    + destruct (IH Hin) as [e' He']. subst rs.
      destruct r; [by exists e' | by eexists].
Qed.

(** ** The two routes and the population *)

Section BackendFacts.

Variable axios_get : value -> result value.

(** Processing a reference only reads the module state, and only its
    cache. *)
Lemma process_pokemon_state (ref : value) (st : server) :
  fst (process_pokemon axios_get ref st) = st.
Proof.
  unfold process_pokemon. unfold_js. repeat case_result; reflexivity.
Qed.

Lemma process_pokemon_cache (ref : value) (st st' : server) :
  typeKoreanNames st = typeKoreanNames st' ->
  outcome (process_pokemon axios_get ref) st
  = outcome (process_pokemon axios_get ref) st'.
Proof.
  intros Hc. unfold process_pokemon. unfold_js. rewrite Hc.
  repeat case_result; reflexivity.
Qed.

(** What a successful processing fetched and computed. *)
Lemma process_pokemon_inv (ref : value) (st : server) (item : value) :
  outcome (process_pokemon axios_get ref) st = Ok item ->
  exists id id_text pokemonData speciesData localized koreanName types
         animatedImageUrl defaultImageUrl,
    id_of ref = Ok id /\
    to_string id = Ok id_text /\
    axios_get (VStr (POKEAPI_BASE_URL +:+ "/pokemon/" +:+ id_text))
      = Ok pokemonData /\
    axios_get (VStr (POKEAPI_BASE_URL +:+ "/pokemon-species/" +:+ id_text))
      = Ok speciesData /\
    korean_name_of speciesData = Ok localized /\
    (if truthy localized then Ok localized else get_prop ref "name")
      = Ok koreanName /\
    type_labels (typeKoreanNames st) pokemonData = Ok types /\
    animated_image pokemonData = Ok animatedImageUrl /\
    default_image pokemonData = Ok defaultImageUrl /\
    item = VObj [("id", id); ("name", koreanName); ("types", VArr types);
                 ("animatedImageUrl", animatedImageUrl);
                 ("defaultImageUrl", defaultImageUrl)].
Proof.
  unfold process_pokemon. unfold_js.
  destruct (id_of ref) as [id|] eqn:Hid; [|discriminate].
  destruct (to_string id) as [id_text|] eqn:Htext; [|discriminate].
  destruct (axios_get (VStr (POKEAPI_BASE_URL +:+ "/pokemon/" +:+ id_text)))
    as [pokemonData|] eqn:Hp; [|discriminate].
  destruct (axios_get
              (VStr (POKEAPI_BASE_URL +:+ "/pokemon-species/" +:+ id_text)))
    as [speciesData|] eqn:Hs; [|discriminate].
  destruct (korean_name_of speciesData) as [localized|] eqn:Hl;
    [|discriminate].
  destruct (if truthy localized then Ok localized else get_prop ref "name")
    as [koreanName|] eqn:Hk; [|discriminate].
  destruct (type_labels (typeKoreanNames st) pokemonData) as [types|] eqn:Ht;
    [|discriminate].
  destruct (animated_image pokemonData) as [a|] eqn:Ha; [|discriminate].
  destruct (default_image pokemonData) as [d|] eqn:Hd; [|discriminate].
  intros [= <-].
  by exists id, id_text, pokemonData, speciesData, localized, koreanName,
            types, a, d.
Qed.

Lemma process_pokemon_read_only (ref : value) :
  read_only (process_pokemon axios_get ref).
Proof. intros st. apply process_pokemon_state. Qed.

Lemma process_all_read_only (refs : list value) :
  Forall read_only (map (process_pokemon axios_get) refs).
Proof.
  apply Forall_forall. intros p [ref [-> _]]%list_elem_of_fmap.
  apply process_pokemon_read_only.
Qed.

Lemma process_pokemon_id (ref : value) (st : server) (item : value) :
  outcome (process_pokemon axios_get ref) st = Ok item ->
  exists id, id_of ref = Ok id /\ get_prop item "id" = Ok id.
Proof.
  intros (id & ? & ? & ? & ? & ? & ? & ? & ? & Hid & _ & _ & _ & _ & _ & _
          & _ & _ & ->)%process_pokemon_inv.
  by exists id.
Qed.

(** The list route unfolded: the request is logged, the [try] block is a
    function of upstream and the cache, and a throw is logged and answered
    with the failure. *)
Lemma list_answer_run (offset limit : Z) (st : server) :
  list_answer axios_get offset limit st
  = let st1 := Server (typeKoreanNames st)
                 (console st ++ [ListRequest offset limit]) in
    match
      (let* listData := axios_get (VStr (list_url offset limit)) in
       let* pokemonListItems := get_prop listData "results" in
       let* items := as_array pokemonListItems in
       let* processed :=
         outcome (promise_all (map (process_pokemon axios_get) items)) st1 in
       let* count := get_prop listData "count" in
       Ok (page count processed))
    with
    | Ok r => (st1, Ok r)
    | Throw e => (Server (typeKoreanNames st1) (console st1 ++ [ListError e]),
                  Ok list_failure)
    end.
Proof.
  unfold list_answer. unfold_js. unfold result_bind.
  destruct (axios_get _) as [listData|]; [|reflexivity].
  destruct (get_prop listData "results") as [v|]; [|reflexivity].
  destruct (as_array v) as [items|]; [|reflexivity].
  pose proof (promise_all_state _
                (Server (typeKoreanNames st)
                   (console st ++ [ListRequest offset limit]))
                (process_all_read_only items)) as Hst.
  destruct (promise_all _ _) as [st2 rs]. cbn [fst snd] in *. subst st2.
  destruct rs; [|reflexivity].
  destruct (get_prop listData "count"); reflexivity.
Qed.

Lemma api_pokemons_run (q : query) (st : server) :
  api_pokemons axios_get q st
  = let st1 := Server (typeKoreanNames st)
                 (console st
                  ++ [ListRequest (parse_offset q) (parse_limit q)]) in
    match
      (let* listData :=
         axios_get (VStr (list_url (parse_offset q) (parse_limit q))) in
       let* pokemonListItems := get_prop listData "results" in
       let* items := as_array pokemonListItems in
       let* processed :=
         outcome (promise_all (map (process_pokemon axios_get) items)) st1 in
       let* count := get_prop listData "count" in
       Ok (page count processed))
    with
    | Ok r => (st1, Ok r)
    | Throw e => (Server (typeKoreanNames st1) (console st1 ++ [ListError e]),
                  Ok list_failure)
    end.
Proof. exact (list_answer_run (parse_offset q) (parse_limit q) st). Qed.

(** The first two lines on parameters that are absent or texts: they never
    throw, and give what [parse_offset] and [parse_limit] give. *)
Lemma offset_of_request_of (q : query) :
  offset_of (request_of q) = Ok (parse_offset q).
Proof. by destruct q as [[o|] l]. Qed.

Lemma limit_of_request_of (q : query) :
  limit_of (request_of q) = Ok (parse_limit q).
Proof. by destruct q as [o [l|]]. Qed.

Lemma list_handler_request_of (q : query) (st : server) :
  list_handler axios_get (request_of q) st = api_pokemons axios_get q st.
Proof.
  unfold list_handler, js_bind, lift.
  by rewrite offset_of_request_of, limit_of_request_of.
Qed.

(** What the handler does once both parameters are read, and when reading
    one of them throws. *)
Lemma list_handler_run (req : request) (st : server) :
  list_handler axios_get req st
  = match offset_of req with
    | Throw e => (st, Throw e)
    | Ok offset =>
        match limit_of req with
        | Throw e => (st, Throw e)
        | Ok limit => list_answer axios_get offset limit st
        end
    end.
Proof.
  unfold list_handler, js_bind, lift.
  destruct (offset_of req); [|reflexivity]. by destruct (limit_of req).
Qed.

Lemma process_all_outcome (refs : list value) (st st1 : server)
      (l : list value) :
  typeKoreanNames st1 = typeKoreanNames st ->
  Forall2 (fun p a => outcome p st1 = Ok a)
          (map (process_pokemon axios_get) refs) l ->
  Forall2 (fun ref item =>
             outcome (process_pokemon axios_get ref) st = Ok item)
          refs l.
Proof.
  intros Hc H. apply Forall2_fmap_l in H.
  eapply Forall2_impl; [exact H|]. cbn. intros ref item <-.
  by apply process_pokemon_cache.
Qed.

(** C1 (amended).  When the reference list is fetched and every reference
    is processed successfully, [GET /api/pokemons] answers 200 with exactly
    one record per upstream reference, in the order of the references, each
    record being the outcome of processing the reference at the same position
    and carrying the identifier taken from that reference's URL; [count] is
    the [count] of the reference-list payload.  The page is therefore no
    longer than [limit] whenever upstream returns no more than [limit]
    references: the route itself never truncates. *)
Theorem api_pokemons_page (q : query) (st : server) (listData : value)
        (refs : list value) :
  axios_get (VStr (list_url (parse_offset q) (parse_limit q))) = Ok listData ->
  get_prop listData "results" = Ok (VArr refs) ->
  Forall (fun ref => is_ok (outcome (process_pokemon axios_get ref) st)) refs ->
  exists count items,
    get_prop listData "count" = Ok count /\
    outcome (api_pokemons axios_get q) st = Ok (page count items) /\
    Forall2 (fun ref item =>
               outcome (process_pokemon axios_get ref) st = Ok item /\
               exists id, id_of ref = Ok id /\ get_prop item "id" = Ok id)
            refs items /\
    length items = length refs /\
    (Z.of_nat (length refs) <= parse_limit q ->
     Z.of_nat (length items) <= parse_limit q).
Proof.
  intros Hlist Hres Hall.
  set (st1 := Server (typeKoreanNames st)
                (console st ++ [ListRequest (parse_offset q) (parse_limit q)])).
  assert (Hok : Forall (fun p => is_ok (outcome p st1))
                  (map (process_pokemon axios_get) refs)).
  { apply Forall_fmap. eapply Forall_impl; [exact Hall|]. cbn.
    intros ref Hr. by rewrite (process_pokemon_cache ref st1 st). }
  destruct (promise_all_ok _ st1 (process_all_read_only refs) Hok)
    as (items & Hitems & Hpairs).
  apply (process_all_outcome refs st st1) in Hpairs; [|reflexivity].
  assert (Hcount : exists count, get_prop listData "count" = Ok count).
  { destruct listData; try discriminate; by eexists. }
  destruct Hcount as [count Hcount].
  exists count, items. split; [exact Hcount|].
  assert (Hlen : length items = length refs)
    by (symmetry; eapply Forall2_length; exact Hpairs).
  repeat split.
  - unfold outcome at 1. rewrite api_pokemons_run. fold st1.
    rewrite Hlist. cbn [result_bind]. rewrite Hres. cbn [result_bind as_array].
    rewrite Hitems. cbn [result_bind]. rewrite Hcount. reflexivity.
  - eapply Forall2_impl; [exact Hpairs|]. cbn. intros ref item Hp.
    split; [exact Hp | by eapply process_pokemon_id].
  - exact Hlen.
  - by rewrite Hlen.
Qed.

Lemma api_pokemons_list_failure (q : query) (st : server) :
  failed (axios_get (VStr (list_url (parse_offset q) (parse_limit q)))) ->
  outcome (api_pokemons axios_get q) st = Ok list_failure.
Proof.
  intros [e He]. unfold outcome. rewrite api_pokemons_run, He. reflexivity.
Qed.

Lemma api_pokemons_item_failure (q : query) (st : server) (listData : value)
      (refs : list value) (ref : value) :
  axios_get (VStr (list_url (parse_offset q) (parse_limit q))) = Ok listData ->
  get_prop listData "results" = Ok (VArr refs) ->
  ref ∈ refs ->
  failed (outcome (process_pokemon axios_get ref) st) ->
  outcome (api_pokemons axios_get q) st = Ok list_failure.
Proof.
  intros Hlist Hres Hin [e He].
  set (st1 := Server (typeKoreanNames st)
                (console st ++ [ListRequest (parse_offset q) (parse_limit q)])).
  rewrite (process_pokemon_cache ref st st1) in He by reflexivity.
  destruct (promise_all_throw (map (process_pokemon axios_get) refs)
              (process_pokemon axios_get ref) st1 e
              (process_all_read_only refs)) as [e' He'];
    [by apply list_elem_of_fmap_2 | exact He |].
  unfold outcome at 1. rewrite api_pokemons_run. fold st1.
  rewrite Hlist. cbn [result_bind]. rewrite Hres. cbn [result_bind as_array].
  rewrite He'. reflexivity.
Qed.

Lemma process_pokemon_subfetch (ref : value) (st : server) (id : value)
      (id_text : string) :
  id_of ref = Ok id ->
  to_string id = Ok id_text ->
  failed (axios_get (VStr (POKEAPI_BASE_URL +:+ "/pokemon/" +:+ id_text))) \/
  failed (axios_get
            (VStr (POKEAPI_BASE_URL +:+ "/pokemon-species/" +:+ id_text))) ->
  failed (outcome (process_pokemon axios_get ref) st).
Proof.
  intros Hid Htext Hfail. unfold process_pokemon. unfold_js.
  rewrite Hid. cbn. rewrite Htext. cbn.
  destruct Hfail as [[e He]|[e He]].
  - rewrite He. by exists e.
  - destruct (axios_get (VStr (POKEAPI_BASE_URL +:+ "/pokemon/" +:+ id_text)))
      as [d|e0]; cbn.
    + rewrite He. by exists e.
    + by exists e0.
Qed.

(** The detail route unfolded in the same way. *)
Lemma api_pokemon_run (pokemonId : string) (st : server) :
  api_pokemon axios_get pokemonId st
  = let st1 := Server (typeKoreanNames st)
                 (console st
                  ++ [DetailRequest
                        (POKEAPI_BASE_URL +:+ "/pokemon/" +:+ pokemonId)]) in
    match detail_body axios_get (typeKoreanNames st) pokemonId with
    | Ok r => (st1, Ok r)
    | Throw e =>
        (Server (typeKoreanNames st) (console st1 ++ [DetailError pokemonId e]),
         Ok (detail_failure pokemonId))
    end.
Proof.
  unfold api_pokemon, detail_body. unfold_js. unfold result_bind.
  repeat case_result; reflexivity.
Qed.

Lemma api_pokemon_failure (pokemonId : string) (st : server) :
  failed (axios_get (VStr (POKEAPI_BASE_URL +:+ "/pokemon/" +:+ pokemonId))) \/
  failed (axios_get
            (VStr (POKEAPI_BASE_URL +:+ "/pokemon-species/" +:+ pokemonId))) ->
  outcome (api_pokemon axios_get pokemonId) st = Ok (detail_failure pokemonId).
Proof.
  intros Hfail. unfold outcome. rewrite api_pokemon_run. unfold detail_body.
  destruct Hfail as [[e He]|[e He]].
  - rewrite He. reflexivity.
  - destruct (axios_get
                (VStr (POKEAPI_BASE_URL +:+ "/pokemon/" +:+ pokemonId)));
      cbn [result_bind]; [rewrite He|]; reflexivity.
Qed.

(** C3.  A rejected reference-list fetch, or one reference of the page whose
    processing throws, makes [GET /api/pokemons] answer 500 with the generic
    message and no page; a rejected sub-fetch of either detail resource makes
    the processing of its reference throw.  [GET /api/pokemon/:id] answers 500
    with a message naming the requested id when the primary fetch is
    rejected, and also when the species fetch is rejected after it. *)
Theorem sub_fetch_failure_is_500 :
  (forall q st,
      failed (axios_get (VStr (list_url (parse_offset q) (parse_limit q)))) ->
      outcome (api_pokemons axios_get q) st
      = Ok (Response 500
              (VObj [("message", VStr "Failed to fetch pokemons")]))) /\
  (forall q st listData refs ref,
      axios_get (VStr (list_url (parse_offset q) (parse_limit q)))
        = Ok listData ->
      get_prop listData "results" = Ok (VArr refs) ->
      ref ∈ refs ->
      failed (outcome (process_pokemon axios_get ref) st) ->
      outcome (api_pokemons axios_get q) st
      = Ok (Response 500
              (VObj [("message", VStr "Failed to fetch pokemons")]))) /\
  (forall ref st id id_text,
      id_of ref = Ok id ->
      to_string id = Ok id_text ->
      failed (axios_get
                (VStr (POKEAPI_BASE_URL +:+ "/pokemon/" +:+ id_text))) \/
      failed (axios_get
                (VStr (POKEAPI_BASE_URL +:+ "/pokemon-species/"
                         +:+ id_text))) ->
      failed (outcome (process_pokemon axios_get ref) st)) /\
  (forall pokemonId st,
      failed (axios_get
                (VStr (POKEAPI_BASE_URL +:+ "/pokemon/" +:+ pokemonId))) \/
      failed (axios_get
                (VStr (POKEAPI_BASE_URL +:+ "/pokemon-species/"
                         +:+ pokemonId))) ->
      outcome (api_pokemon axios_get pokemonId) st
      = Ok (Response 500
              (VObj [("message",
                      VStr ("Failed to fetch pokemon " +:+ pokemonId))]))).
Proof.
  split; [|split; [|split]].
  - intros q st. apply api_pokemons_list_failure.
  - intros q st listData refs ref. apply api_pokemons_item_failure.
  - intros ref st id id_text. apply process_pokemon_subfetch.
  - intros pokemonId st. apply api_pokemon_failure.
Qed.

Lemma without_sprites_failed (pokemonData : value) :
  without_sprites pokemonData ->
  failed (animated_image pokemonData) /\ failed (default_image pokemonData).
Proof.
  intros Hno. unfold animated_image, default_image.
  destruct (get_prop pokemonData "sprites") as [sprites|e] eqn:Hs;
    [|split; by exists e].
  cbn [result_bind]. specialize (Hno sprites Hs).
  destruct sprites; try discriminate; split; by exists TypeError.
Qed.

Lemma process_pokemon_without_sprites (ref : value) (st : server)
      (id : value) (id_text : string) (pokemonData : value) :
  id_of ref = Ok id ->
  to_string id = Ok id_text ->
  axios_get (VStr (POKEAPI_BASE_URL +:+ "/pokemon/" +:+ id_text))
    = Ok pokemonData ->
  without_sprites pokemonData ->
  failed (outcome (process_pokemon axios_get ref) st).
Proof.
  intros Hid Htext Hp Hno.
  destruct (outcome (process_pokemon axios_get ref) st) as [item|e] eqn:Hr;
    [|by exists e].
  apply process_pokemon_inv in Hr
    as (id' & id_text' & pokemonData' & ? & ? & ? & ? & a & ? & Hid'
        & Htext' & Hp' & _ & _ & _ & _ & Ha & _).
  rewrite Hid in Hid'. injection Hid' as <-.
  rewrite Htext in Htext'. injection Htext' as <-.
  rewrite Hp in Hp'. injection Hp' as <-.
  destruct (without_sprites_failed _ Hno) as [[e He] _]. congruence.
Qed.

(** C4 (amended).  For a primary-detail payload that has [sprites],
    [animatedImageUrl] is the value at
    [versions/generation-v/black-white/animated/front_default] when a sprite
    is present there, and [null] otherwise; [defaultImageUrl], computed on its
    own, is the value at [other/official-artwork/front_default] when one is
    present there and else whatever [front_default] holds, with no [null] put
    in its place.  For a payload without [sprites] neither field is computed:
    both selections throw, so does the processing of the reference the
    payload was fetched for, and the page that lists the reference is
    answered 500.  The two fields of every record of the list route are
    these choices for the payload fetched for the identifier of its
    reference. *)
Theorem image_selection :
  (forall pokemonData sprites,
      get_prop pokemonData "sprites" = Ok sprites ->
      nullish sprites = false ->
      animated_image pokemonData = Ok (animated_choice sprites) /\
      default_image pokemonData = Ok (default_choice sprites)) /\
  (forall pokemonData,
      without_sprites pokemonData ->
      failed (animated_image pokemonData) /\
      failed (default_image pokemonData)) /\
  (forall ref st id id_text pokemonData,
      id_of ref = Ok id ->
      to_string id = Ok id_text ->
      axios_get (VStr (POKEAPI_BASE_URL +:+ "/pokemon/" +:+ id_text))
        = Ok pokemonData ->
      without_sprites pokemonData ->
      failed (outcome (process_pokemon axios_get ref) st)) /\
  (forall q st listData refs ref id id_text pokemonData,
      axios_get (VStr (list_url (parse_offset q) (parse_limit q)))
        = Ok listData ->
      get_prop listData "results" = Ok (VArr refs) ->
      ref ∈ refs ->
      id_of ref = Ok id ->
      to_string id = Ok id_text ->
      axios_get (VStr (POKEAPI_BASE_URL +:+ "/pokemon/" +:+ id_text))
        = Ok pokemonData ->
      without_sprites pokemonData ->
      outcome (api_pokemons axios_get q) st = Ok list_failure) /\
  (forall ref st item,
      outcome (process_pokemon axios_get ref) st = Ok item ->
      exists id id_text pokemonData sprites,
        id_of ref = Ok id /\
        to_string id = Ok id_text /\
        axios_get (VStr (POKEAPI_BASE_URL +:+ "/pokemon/" +:+ id_text))
          = Ok pokemonData /\
        get_prop pokemonData "sprites" = Ok sprites /\
        nullish sprites = false /\
        get_prop item "animatedImageUrl" = Ok (animated_choice sprites) /\
        get_prop item "defaultImageUrl" = Ok (default_choice sprites)).
Proof.
  split; [|split; [exact without_sprites_failed|split; [|split]]].
  - intros pokemonData sprites Hs Hn.
    by split; [apply animated_image_spec | apply default_image_spec].
  - exact process_pokemon_without_sprites.
  - intros q st listData refs ref id id_text pokemonData Hlist Hres Hin Hid
      Htext Hp Hno.
    eapply api_pokemons_item_failure; [exact Hlist | exact Hres | exact Hin |].
    by eapply process_pokemon_without_sprites.
  - intros ref st item
      (id & id_text & pokemonData & ? & ? & ? & ? & a & d & Hid & Htext & Hp
       & _ & _ & _ & _ & Ha & Hd & ->)%process_pokemon_inv.
    destruct (animated_image_sprites _ _ Ha) as (sprites & Hs & Hn).
    rewrite (animated_image_spec _ _ Hs Hn) in Ha.
    rewrite (default_image_spec _ _ Hs Hn) in Hd.
    injection Ha as <-. injection Hd as <-.
    by exists id, id_text, pokemonData, sprites.
Qed.

Lemma type_pairs_object (c : cache) (pokemonData : value)
      (types : list value) :
  type_pairs c pokemonData = Ok types ->
  exists fields upstream_types,
    pokemonData = VObj fields /\
    assoc "types" fields = Some (VArr upstream_types).
Proof.
  unfold type_pairs.
  destruct pokemonData as [| | | | | |fields|]; try (cbn; discriminate).
  cbn [get_prop result_bind].
  destruct (assoc "types" fields) as [v|] eqn:Ea; [|cbn; discriminate].
  destruct v; try (cbn; discriminate).
  intros _. by eexists _, _.
Qed.

Lemma detail_body_inv (c : cache) (pokemonId : string) (r : response) :
  detail_body axios_get c pokemonId = Ok r ->
  exists fields speciesData localized types,
    axios_get (VStr (POKEAPI_BASE_URL +:+ "/pokemon/" +:+ pokemonId))
      = Ok (VObj fields) /\
    axios_get (VStr (POKEAPI_BASE_URL +:+ "/pokemon-species/" +:+ pokemonId))
      = Ok speciesData /\
    korean_name_of speciesData = Ok localized /\
    type_pairs c (VObj fields) = Ok types /\
    r = Response 200
          (VObj (set_field "types" (VArr types)
                   (set_field "name"
                      (display_name localized
                         (default VUndef (assoc "name" fields)))
                      fields))).
Proof.
  unfold detail_body.
  destruct (axios_get (VStr (POKEAPI_BASE_URL +:+ "/pokemon/" +:+ pokemonId)))
    as [pokemonData|] eqn:Hp; [|discriminate].
  destruct (axios_get
              (VStr (POKEAPI_BASE_URL +:+ "/pokemon-species/" +:+ pokemonId)))
    as [speciesData|] eqn:Hs; [|discriminate].
  cbn [result_bind].
  destruct (korean_name_of speciesData) as [localized|] eqn:Hl;
    [|discriminate].
  cbn [result_bind].
  destruct (if truthy localized then Ok localized
            else get_prop pokemonData "name") as [koreanName|] eqn:Hk;
    [|discriminate].
  cbn [result_bind].
  destruct (type_pairs c pokemonData) as [types|] eqn:Ht; [|discriminate].
  cbn [result_bind]. intros [= <-].
  destruct (type_pairs_object _ _ _ Ht) as (fields & ? & -> & _).
  exists fields, speciesData, localized, types.
  assert (Hname : koreanName
                  = display_name localized
                      (default VUndef (assoc "name" fields))).
  { unfold display_name.
    destruct (truthy localized); cbn [get_prop] in Hk; by injection Hk. }
  by rewrite Hname.
Qed.

Lemma api_pokemon_inv (pokemonId : string) (st : server) (resp : response) :
  outcome (api_pokemon axios_get pokemonId) st = Ok resp ->
  status resp = 200%nat ->
  detail_body axios_get (typeKoreanNames st) pokemonId = Ok resp.
Proof.
  unfold outcome. rewrite api_pokemon_run.
  destruct (detail_body axios_get (typeKoreanNames st) pokemonId); cbn.
  - by intros [= <-].
  - intros [= <-]. discriminate.
Qed.

(** C6 (amended).  The localized name of a species payload is the [name] of
    the first entry of [names] whose language is [ko], and [undefined] when
    there is none.  The display name is that localized name when it is truthy;
    when there is no such entry, or its name is empty, the list route falls
    back to the name of the reference and the detail route to the [name] of
    the primary-detail payload.  The species payload is the one fetched for
    the item: for the identifier cut from the reference's URL in the list
    route, for the requested id in the detail route. *)
Theorem localized_name :
  (forall data pre e post name,
      get_prop data "names" = Ok (VArr (pre ++ e :: post)) ->
      Forall other_language pre ->
      has_language "ko" e ->
      get_prop e "name" = Ok name ->
      korean_name_of data = Ok name) /\
  (forall data names,
      get_prop data "names" = Ok (VArr names) ->
      Forall other_language names ->
      korean_name_of data = Ok VUndef) /\
  (forall ref st item,
      outcome (process_pokemon axios_get ref) st = Ok item ->
      exists id id_text speciesData localized given,
        id_of ref = Ok id /\
        to_string id = Ok id_text /\
        axios_get
          (VStr (POKEAPI_BASE_URL +:+ "/pokemon-species/" +:+ id_text))
          = Ok speciesData /\
        korean_name_of speciesData = Ok localized /\
        get_prop ref "name" = Ok given /\
        get_prop item "name" = Ok (display_name localized given)) /\
  (forall pokemonId st resp,
      outcome (api_pokemon axios_get pokemonId) st = Ok resp ->
      status resp = 200%nat ->
      exists pokemonData speciesData localized own_name,
        axios_get (VStr (POKEAPI_BASE_URL +:+ "/pokemon/" +:+ pokemonId))
          = Ok pokemonData /\
        axios_get
          (VStr (POKEAPI_BASE_URL +:+ "/pokemon-species/" +:+ pokemonId))
          = Ok speciesData /\
        korean_name_of speciesData = Ok localized /\
        get_prop pokemonData "name" = Ok own_name /\
        get_prop (body resp) "name" = Ok (display_name localized own_name)).
Proof.
  split; [intros; by eapply korean_name_of_entry|].
  split; [exact korean_name_of_none|].
  split.
  - intros ref st item
      (id & id_text & ? & speciesData & localized & koreanName & ? & ? & ?
       & Hid & Htext & _ & Hs & Hl & Hk & _ & _ & _ & ->)%process_pokemon_inv.
    assert (Hgiven : exists given, get_prop ref "name" = Ok given).
    { apply get_prop_ok. unfold id_of in Hid. by destruct ref. }
    destruct Hgiven as [given Hgiven].
    exists id, id_text, speciesData, localized, given.
    repeat split; try done.
    unfold display_name. rewrite Hgiven in Hk.
    cbn. by destruct (truthy localized); injection Hk as <-.
  - intros pokemonId st resp Hresp H200.
    apply api_pokemon_inv in Hresp; [|exact H200].
    apply detail_body_inv in Hresp
      as (fields & speciesData & localized & types & Hp & Hs & Hl & _ & ->).
    exists (VObj fields), speciesData, localized,
      (default VUndef (assoc "name" fields)).
    repeat split; try done.
    cbn [body get_prop]. by rewrite !assoc_set_field.
Qed.

(** C7 (amended).  A 200 answer of [GET /api/pokemon/:id] is the
    primary-detail payload fetched for the id, an object, with two
    properties set and every other property reading exactly as in the
    upstream payload.  [name] is the display name: the name of the first
    [ko] entry of the names of the species fetched for the id when that name
    is truthy, and the payload's own [name] otherwise.  [types] has one
    [{englishName, koreanName}] pair per upstream type, in the upstream
    order, [englishName] being the upstream key; for a key the cache treats
    as a table does, [koreanName] is the label stored for the key, and the
    key itself when none is stored. *)
Theorem detail_overrides_two_fields (pokemonId : string) (st : server)
        (resp : response) :
  outcome (api_pokemon axios_get pokemonId) st = Ok resp ->
  status resp = 200%nat ->
  exists fields speciesData names localized upstream_types types,
    axios_get (VStr (POKEAPI_BASE_URL +:+ "/pokemon/" +:+ pokemonId))
      = Ok (VObj fields) /\
    axios_get (VStr (POKEAPI_BASE_URL +:+ "/pokemon-species/" +:+ pokemonId))
      = Ok speciesData /\
    get_prop speciesData "names" = Ok (VArr names) /\
    first_ko_name names localized /\
    get_prop (VObj fields) "types" = Ok (VArr upstream_types) /\
    get_prop (body resp) "name"
      = Ok (display_name localized (default VUndef (assoc "name" fields))) /\
    get_prop (body resp) "types" = Ok (VArr types) /\
    Forall2 (localized_pair (typeKoreanNames st)) upstream_types types /\
    (forall k, k <> "name" -> k <> "types" ->
               get_prop (body resp) k = get_prop (VObj fields) k).
Proof.
  intros Hresp H200.
  apply api_pokemon_inv in Hresp; [|exact H200].
  apply detail_body_inv in Hresp
    as (fields & speciesData & localized & types & Hp & Hs & Hl & Ht & ->).
  destruct (type_pairs_object _ _ _ Ht) as (fields' & upstream & [= <-] & Hup).
  destruct (korean_name_of_inv _ _ Hl) as (names & Hnames & Hfirst).
  exists fields, speciesData, names, localized, upstream, types.
  repeat split; try done.
  - cbn [get_prop]. by rewrite Hup.
  - cbn [body get_prop]. by rewrite !assoc_set_field.
  - cbn [body get_prop]. by rewrite !assoc_set_field.
  - unfold type_pairs in Ht. cbn [get_prop] in Ht. rewrite Hup in Ht.
    cbn [default result_bind as_array] in Ht.
    apply array_map_Forall2 in Ht.
    eapply Forall2_impl; [exact Ht|]. cbn beta. intros typeInfo pair Hpair.
    unfold localized_pair.
    destruct (get_prop typeInfo "type") as [type|] eqn:E1; [|discriminate].
    cbn [result_bind] in Hpair.
    destruct (get_prop type "name") as [key|] eqn:E2; [|discriminate].
    cbn [result_bind] in Hpair.
    destruct (labelFor (typeKoreanNames st) key) as [label|] eqn:E3;
      [|discriminate].
    injection Hpair as <-.
    destruct (labelFor_plain_key _ _ _ E3) as (k & Hk & Hlabel).
    by exists type, key, k, label.
  - intros k Hn Ht'. cbn [body get_prop]. rewrite !assoc_set_field.
    apply String.eqb_neq in Hn, Ht'. by rewrite Hn, Ht'.
Qed.

(** One settled callback leaves the cache alone or stores one label. *)
Lemma load_type_effect (type : value) (st : server) :
  console (fst (load_type axios_get type st)) = console st /\
  (typeKoreanNames (fst (load_type axios_get type st)) = typeKoreanNames st \/
   exists k v,
     stores axios_get type k v /\
     typeKoreanNames (fst (load_type axios_get type st))
     = cache_set (typeKoreanNames st) k v).
Proof.
  unfold load_type. unfold_js.
  destruct (get_prop type "url") as [url|] eqn:Hu; cbn; [|by auto].
  destruct (axios_get url) as [data|] eqn:Hd; cbn; [|by auto].
  destruct (korean_name_of data) as [v|] eqn:Hv; cbn; [|by auto].
  destruct (truthy v) eqn:Tv; cbn; [|by auto].
  destruct (get_prop type "name") as [name|] eqn:Hn; cbn; [|by auto].
  destruct (to_string name) as [k|] eqn:Hk; cbn; [|by auto].
  split; [reflexivity|]. right. exists k, v. split; [|reflexivity].
  by exists url, data, name.
Qed.

Lemma promise_all_load (types : list value) (st : server) :
  console (fst (promise_all (map (load_type axios_get) types) st))
  = console st /\
  (forall k v,
      own (typeKoreanNames
             (fst (promise_all (map (load_type axios_get) types) st))) !! k
      = Some v ->
      own (typeKoreanNames st) !! k = Some v \/
      exists type, type ∈ types /\ stores axios_get type k v) /\
  (forall k,
      is_Some (own (typeKoreanNames st) !! k) ->
      is_Some (own (typeKoreanNames
                      (fst (promise_all (map (load_type axios_get) types) st)))
               !! k)).
Proof.
  revert st. induction types as [|type types IH]; intros st.
  - cbn. by auto.
  - cbn [map promise_all].
    destruct (load_type_effect type st) as [Hcon Hcache].
    destruct (load_type axios_get type st) as [st1 r]. cbn [fst] in *.
    destruct (IH st1) as (IHcon & IHown & IHkeep).
    destruct (promise_all (map (load_type axios_get) types) st1) as [st2 rs].
    cbn [fst] in *. split; [congruence|]. split.
    + intros k v Hk.
      destruct (IHown k v Hk) as [Hin1|(t & Ht & Hst)].
      * destruct Hcache as [Heq|(k0 & v0 & Hst & Heq)]; rewrite Heq in Hin1.
        -- by left.
        -- apply cache_set_own_inv in Hin1 as [?|[-> ->]]; [by left|].
           right. exists type. split; [apply list_elem_of_here | exact Hst].
      * right. exists t. split; [by apply list_elem_of_further | exact Hst].
    + intros k Hk. apply IHkeep.
      destruct Hcache as [->|(k0 & v0 & _ & ->)]; [exact Hk|].
      by apply cache_set_own_keeps.
Qed.

(** The settled callbacks leave the prototype of the cache alone, unless
    one of them stores under the name [__proto__]. *)
Lemma promise_all_load_proto (types : list value) (st : server) :
  (forall t v, t ∈ types -> ~ stores axios_get t "__proto__" v) ->
  proto (typeKoreanNames
           (fst (promise_all (map (load_type axios_get) types) st)))
  = proto (typeKoreanNames st).
Proof.
  revert st. induction types as [|type types IH]; intros st Hnone.
  - reflexivity.
  - cbn [map promise_all].
    assert (Hhead : proto (typeKoreanNames (fst (load_type axios_get type st)))
                    = proto (typeKoreanNames st)).
    { destruct (load_type_effect type st)
        as [_ [->|(k0 & v0 & Hst0 & ->)]]; [reflexivity|].
      apply cache_set_proto. intros ->.
      by apply (Hnone type v0 (list_elem_of_here _ _)). }
    destruct (load_type axios_get type st) as [st1 r]. cbn [fst] in Hhead.
    assert (IH' := IH st1 (fun t v Ht => Hnone t v (list_elem_of_further _ _ _ Ht))).
    destruct (promise_all (map (load_type axios_get) types) st1).
    cbn [fst] in *. congruence.
Qed.

(** Population never rejects; it leaves the cache as it was, with the error
    logged, or as the settled callbacks left it. *)
Lemma loadTypeTranslations_cases (settled : list value -> list value)
      (st : server) :
  let st1 := Server (typeKoreanNames st) (console st ++ [InitStart]) in
  outcome (loadTypeTranslations axios_get settled) st = Ok tt /\
  ((typeKoreanNames (fst (loadTypeTranslations axios_get settled st))
    = typeKoreanNames st /\
    exists e,
      console (fst (loadTypeTranslations axios_get settled st))
      = (console st ++ [InitStart; InitError e])%list) \/
   exists data types,
     axios_get type_list_url = Ok data /\
     get_prop data "results" = Ok (VArr types) /\
     typeKoreanNames (fst (loadTypeTranslations axios_get settled st))
     = typeKoreanNames
         (fst (promise_all (map (load_type axios_get) (settled types)) st1))).
Proof.
  unfold loadTypeTranslations, type_list_url. unfold_js.
  destruct (axios_get _) as [data|e] eqn:Hd; cbn.
  2:{ split; [reflexivity|]. left. split; [reflexivity|]. exists e.
      by rewrite <- app_assoc. }
  destruct (get_prop data "results") as [v|e] eqn:Hr; cbn.
  2:{ split; [reflexivity|]. left. split; [reflexivity|]. exists e.
      by rewrite <- app_assoc. }
  destruct (as_array v) as [types|e] eqn:Ha; cbn.
  2:{ split; [reflexivity|]. left. split; [reflexivity|]. exists e.
      by rewrite <- app_assoc. }
  destruct v; try discriminate. injection Ha as ->.
  destruct (promise_all_load (settled types)
              (Server (typeKoreanNames st) (console st ++ [InitStart])))
    as (Hcon & _ & _).
  destruct (promise_all _ _) as [st2 [rs|e]] eqn:Hall; cbn in *.
  all: split; [reflexivity|]; right; exists data, types.
  all: by rewrite Hall.
Qed.

Lemma api_pokemons_cache (q : query) (st : server) :
  typeKoreanNames (fst (api_pokemons axios_get q st)) = typeKoreanNames st.
Proof.
  rewrite api_pokemons_run. cbv zeta.
  by destruct (result_bind _ _).
Qed.

Lemma api_pokemon_cache (pokemonId : string) (st : server) :
  typeKoreanNames (fst (api_pokemon axios_get pokemonId st))
  = typeKoreanNames st.
Proof.
  rewrite api_pokemon_run. cbv zeta.
  by destruct (detail_body _ _ _).
Qed.

(** C10 (amended).  Whatever order the per-type fetches settle in, every
    own entry of the cache after [loadTypeTranslations] was there before or
    is the truthy [ko] label found in the detail payload of an enumerated
    type, stored under that type's name, so a type without such a label adds
    nothing; population removes no entry; and neither route writes to the
    cache.  Two conditions on upstream are needed for the rest.  When no
    enumerated type stores under the name [__proto__], population leaves the
    prototype of the cache as it was, so it changes the cache by its own
    entries only.  When upstream labels are strings, a cache of non-empty
    strings stays one. *)
Theorem cache_written_by_population_only (settled : list value -> list value) :
  (forall l, settled l ≡ₚ l) ->
  (forall st k v,
      own (typeKoreanNames (fst (loadTypeTranslations axios_get settled st)))
        !! k = Some v ->
      own (typeKoreanNames st) !! k = Some v \/
      (truthy v = true /\
       exists data types type,
         axios_get type_list_url = Ok data /\
         get_prop data "results" = Ok (VArr types) /\
         type ∈ types /\
         stores axios_get type k v)) /\
  (string_labels axios_get ->
   forall st,
     (forall k v,
         own (typeKoreanNames st) !! k = Some v -> nonempty_string v) ->
     forall k v,
       own (typeKoreanNames (fst (loadTypeTranslations axios_get settled st)))
         !! k = Some v ->
       nonempty_string v) /\
  (forall st k,
      is_Some (own (typeKoreanNames st) !! k) ->
      is_Some (own (typeKoreanNames
                      (fst (loadTypeTranslations axios_get settled st)))
               !! k)) /\
  ((forall data types type v,
       axios_get type_list_url = Ok data ->
       get_prop data "results" = Ok (VArr types) ->
       type ∈ types ->
       ~ stores axios_get type "__proto__" v) ->
   forall st,
     proto (typeKoreanNames (fst (loadTypeTranslations axios_get settled st)))
     = proto (typeKoreanNames st)) /\
  (forall q st,
      typeKoreanNames (fst (api_pokemons axios_get q st))
      = typeKoreanNames st) /\
  (forall req st,
      typeKoreanNames (fst (list_handler axios_get req st))
      = typeKoreanNames st) /\
  (forall pokemonId st,
      typeKoreanNames (fst (api_pokemon axios_get pokemonId st))
      = typeKoreanNames st).
Proof.
  intros Hperm.
  assert (Hstored : forall st k v,
      own (typeKoreanNames (fst (loadTypeTranslations axios_get settled st)))
        !! k = Some v ->
      own (typeKoreanNames st) !! k = Some v \/
      (truthy v = true /\
       exists data types type,
         axios_get type_list_url = Ok data /\
         get_prop data "results" = Ok (VArr types) /\
         type ∈ types /\
         stores axios_get type k v)).
  { intros st k v Hk.
    destruct (loadTypeTranslations_cases settled st)
      as [_ [[Heq _]|(data & types & Hd & Hr & Heq)]]; rewrite Heq in Hk.
    - by left.
    - destruct (promise_all_load (settled types)
                  (Server (typeKoreanNames st) (console st ++ [InitStart])))
        as (_ & Hown & _).
      destruct (Hown k v Hk) as [Hin|(type & Hin & Hst)]; [by left|].
      right. split.
      + by destruct Hst as (? & ? & ? & _ & _ & _ & Hv & _).
      + exists data, types, type. repeat split; try done.
        by rewrite <- (Hperm types). }
  split; [exact Hstored|]. split; [|split; [|split; [|split; [|split]]]].
  - intros Hstr st Hinv k v Hk.
    destruct (Hstored st k v Hk) as [Hin|[Hv (_ & _ & type & _ & _ & _ & Hst)]].
    + by eapply Hinv.
    + destruct Hst as (url & data & _ & _ & Hd & Hl & _).
      destruct (Hstr url data v Hd Hl Hv) as [s ->].
      by apply truthy_string_nonempty.
  - intros st k Hk.
    destruct (loadTypeTranslations_cases settled st)
      as [_ [[Heq _]|(data & types & Hd & Hr & Heq)]]; rewrite Heq.
    + exact Hk.
    + by apply promise_all_load.
  - intros Hnone st.
    destruct (loadTypeTranslations_cases settled st)
      as [_ [[Heq _]|(data & types & Hd & Hr & Heq)]]; rewrite Heq.
    + reflexivity.
    + rewrite promise_all_load_proto; [reflexivity|].
      intros t v Ht. apply (Hnone data types t v Hd Hr).
      by rewrite <- (Hperm types).
  - exact api_pokemons_cache.
  - intros req st. rewrite list_handler_run.
    destruct (offset_of req); [|reflexivity].
    destruct (limit_of req); [|reflexivity].
    rewrite list_answer_run. cbv zeta. by destruct (result_bind _ _).
  - exact api_pokemon_cache.
Qed.

(** A rejected enumeration: nothing is stored, the error is logged, the
    function returns normally. *)
Lemma loadTypeTranslations_enumeration_failure
      (settled : list value -> list value) (st : server) (e : error) :
  axios_get type_list_url = Throw e ->
  loadTypeTranslations axios_get settled st
  = (Server (typeKoreanNames st) (console st ++ [InitStart; InitError e]),
     Ok tt).
Proof.
  intros He. unfold loadTypeTranslations. unfold_js.
  rewrite He. cbn. by rewrite <- app_assoc.
Qed.


End BackendFacts.

(** ** Whether a request succeeds does not depend on the cache *)

Section CacheIndependence.

Variable axios_get : value -> result value.

Lemma array_map_ok_iff (f g : value -> result value) (l : list value) :
  (forall x, is_ok (f x) <-> is_ok (g x)) ->
  is_ok (array_map f l) <-> is_ok (array_map g l).
Proof.
  intros Hfg. induction l as [|x l IH]; cbn [array_map].
  - split; intros _; by eexists.
  - destruct (Hfg x) as [H1 H2].
    destruct (f x) as [y|] eqn:Ef; destruct (g x) as [z|] eqn:Eg; cbn.
    + destruct IH as [I1 I2].
      destruct (array_map f l) as [ys|], (array_map g l) as [zs|]; cbn;
        split; intros [r Hr]; try discriminate; try (by eexists).
      * destruct I1 as [? ?]; [by eexists | discriminate].
      * destruct I2 as [? ?]; [by eexists | discriminate].
    + destruct H1 as [? ?]; [by eexists | discriminate].
    + destruct H2 as [? ?]; [by eexists | discriminate].
    + split; intros [? ?]; discriminate.
Qed.

Lemma bind_ok_iff {A B} (r : result A) (k k' : A -> result B) :
  (forall a, is_ok (k a) <-> is_ok (k' a)) ->
  is_ok (result_bind r k) <-> is_ok (result_bind r k').
Proof.
  intros H. destruct r; cbn; [apply H|].
  split; intros [? ?]; discriminate.
Qed.

Lemma type_labels_ok_iff (c c' : cache) (pokemonData : value) :
  is_ok (type_labels c pokemonData) <-> is_ok (type_labels c' pokemonData).
Proof.
  unfold type_labels. apply bind_ok_iff. intros types.
  apply bind_ok_iff. intros l. apply array_map_ok_iff. intros typeInfo.
  apply bind_ok_iff. intros type. apply bind_ok_iff. intros key.
  apply labelFor_ok_iff.
Qed.

Lemma type_pairs_ok_iff (c c' : cache) (pokemonData : value) :
  is_ok (type_pairs c pokemonData) <-> is_ok (type_pairs c' pokemonData).
Proof.
  unfold type_pairs. apply bind_ok_iff. intros types.
  apply bind_ok_iff. intros l. apply array_map_ok_iff. intros typeInfo.
  apply bind_ok_iff. intros type. apply bind_ok_iff. intros key.
  destruct (labelFor_ok_iff c c' key) as [H1 H2].
  destruct (labelFor c key), (labelFor c' key); cbn;
    split; intros [? ?]; try discriminate; try (by eexists).
  - destruct H1 as [? ?]; [by eexists | discriminate].
  - destruct H2 as [? ?]; [by eexists | discriminate].
Qed.

Lemma process_pokemon_ok_iff (ref : value) (st st' : server) :
  is_ok (outcome (process_pokemon axios_get ref) st)
  <-> is_ok (outcome (process_pokemon axios_get ref) st').
Proof.
  unfold process_pokemon. unfold_js.
  destruct (id_of ref) as [id|]; cbn; [|done].
  destruct (to_string id) as [id_text|]; cbn; [|done].
  destruct (axios_get _) as [pokemonData|]; cbn; [|done].
  destruct (axios_get _) as [speciesData|]; cbn; [|done].
  destruct (korean_name_of speciesData) as [localized|]; cbn; [|done].
  destruct (if truthy localized then _ else _) as [koreanName|]; cbn; [|done].
  destruct (type_labels_ok_iff (typeKoreanNames st) (typeKoreanNames st')
              pokemonData) as [H1 H2].
  destruct (type_labels (typeKoreanNames st) pokemonData) as [ts|],
    (type_labels (typeKoreanNames st') pokemonData) as [ts'|]; cbn.
  - destruct (animated_image pokemonData); cbn; [|done].
    destruct (default_image pokemonData); cbn; [|done].
    split; intros _; by eexists.
  - destruct H1 as [? ?]; [by eexists | discriminate].
  - destruct H2 as [? ?]; [by eexists | discriminate].
  - split; intros [? ?]; discriminate.
Qed.

Lemma promise_all_ok_iff {A} (ps : list (js A)) (st : server) :
  Forall read_only ps ->
  is_ok (outcome (promise_all ps) st)
  <-> Forall (fun p => is_ok (outcome p st)) ps.
Proof.
  intros Hro. split.
  - intros [l Hl]. apply Forall_forall. intros p Hin.
    destruct (outcome p st) as [a|e] eqn:Ep; [by exists a|].
    destruct (promise_all_throw ps p st e Hro Hin Ep) as [e' He'].
    congruence.
  - intros Hall. destruct (promise_all_ok ps st Hro Hall) as (l & Hl & _).
    by exists l.
Qed.

(** Whether a request succeeds does not depend on what the cache holds. *)
Lemma api_pokemons_status (q : query) (st st' : server) (r r' : response) :
  outcome (api_pokemons axios_get q) st = Ok r ->
  outcome (api_pokemons axios_get q) st' = Ok r' ->
  status r = status r'.
Proof.
  unfold outcome. rewrite !api_pokemons_run. cbv zeta.
  destruct (axios_get _) as [listData|]; cbn [result_bind];
    [|by intros [= <-] [= <-]].
  destruct (get_prop listData "results") as [v|]; cbn [result_bind];
    [|by intros [= <-] [= <-]].
  destruct (as_array v) as [items|]; cbn [result_bind];
    [|by intros [= <-] [= <-]].
  set (s1 := Server (typeKoreanNames st) _).
  set (s1' := Server (typeKoreanNames st') _).
  set (ps := map (process_pokemon axios_get) items).
  assert (Hiff : is_ok (outcome (promise_all ps) s1)
                 <-> is_ok (outcome (promise_all ps) s1')).
  { unfold ps. rewrite !promise_all_ok_iff by apply process_all_read_only.
    rewrite !Forall_fmap. apply Forall_iff. intros ref. cbn.
    apply process_pokemon_ok_iff. }
  destruct Hiff as [H1 H2].
  destruct (outcome (promise_all _) s1) as [l|],
    (outcome (promise_all _) s1') as [l'|]; cbn [result_bind].
  - destruct (get_prop listData "count"); cbn; by intros [= <-] [= <-].
  - destruct H1 as [? ?]; [by eexists | discriminate].
  - destruct H2 as [? ?]; [by eexists | discriminate].
  - by intros [= <-] [= <-].
Qed.

Lemma api_pokemon_status (pokemonId : string) (st st' : server)
      (r r' : response) :
  outcome (api_pokemon axios_get pokemonId) st = Ok r ->
  outcome (api_pokemon axios_get pokemonId) st' = Ok r' ->
  status r = status r'.
Proof.
  unfold outcome. rewrite !api_pokemon_run. cbv zeta. unfold detail_body.
  destruct (axios_get _) as [pokemonData|]; cbn [result_bind];
    [|by intros [= <-] [= <-]].
  destruct (axios_get _) as [speciesData|]; cbn [result_bind];
    [|by intros [= <-] [= <-]].
  destruct (korean_name_of speciesData) as [localized|]; cbn [result_bind];
    [|by intros [= <-] [= <-]].
  destruct (if truthy localized then _ else _) as [koreanName|];
    cbn [result_bind]; [|by intros [= <-] [= <-]].
  destruct (type_pairs_ok_iff (typeKoreanNames st) (typeKoreanNames st')
              pokemonData) as [H1 H2].
  destruct (type_pairs (typeKoreanNames st) pokemonData) as [ts|],
    (type_pairs (typeKoreanNames st') pokemonData) as [ts'|]; cbn.
  - by intros [= <-] [= <-].
  - destruct H1 as [? ?]; [by eexists | discriminate].
  - destruct H2 as [? ?]; [by eexists | discriminate].
  - by intros [= <-] [= <-].
Qed.

End CacheIndependence.

(** C5 (amended).  A parameter is converted to text before it is parsed.
    When the conversion of [offset] throws, or that of [limit] after it, the
    handler is left by that error before its [try], with nothing logged and
    no answer of its own.  Otherwise [offset] and [limit] take their
    defaults 0 and 20 when the parameter is absent or [parseInt] finds no
    integer at the start of its text, and [limit] also when the parsed
    integer is 0; in every other case the parsed integer is used, and it is
    the number the rest of the handler works with.  A parameter that is the
    decimal numeral of an integer parses to that integer, and parameters
    that are absent or texts never throw. *)
Theorem query_defaults :
  (forall req,
      (offset_param req = VUndef -> offset_of req = Ok 0) /\
      (limit_param req = VUndef -> limit_of req = Ok 20)) /\
  (forall req s,
      to_string (offset_param req) = Ok s -> parseInt s = None ->
      offset_of req = Ok 0) /\
  (forall req s,
      to_string (limit_param req) = Ok s -> parseInt s = None ->
      limit_of req = Ok 20) /\
  (forall req s n,
      to_string (offset_param req) = Ok s -> parseInt s = Some n ->
      safe_integer n ->
      offset_of req = Ok n) /\
  (forall req s n,
      to_string (limit_param req) = Ok s -> parseInt s = Some n ->
      safe_integer n ->
      limit_of req = Ok (if Z.eqb n 0 then 20 else n)) /\
  (forall req e,
      (to_string (offset_param req) = Throw e -> offset_of req = Throw e) /\
      (to_string (limit_param req) = Throw e -> limit_of req = Throw e)) /\
  (forall axios_get req st,
      (forall e,
          offset_of req = Throw e ->
          list_handler axios_get req st = (st, Throw e)) /\
      (forall e,
          is_ok (offset_of req) -> limit_of req = Throw e ->
          list_handler axios_get req st = (st, Throw e)) /\
      (forall offset limit,
          offset_of req = Ok offset -> limit_of req = Ok limit ->
          list_handler axios_get req st
          = list_answer axios_get offset limit st)) /\
  (forall q,
      offset_of (request_of q) = Ok (parse_offset q) /\
      limit_of (request_of q) = Ok (parse_limit q)) /\
  (forall n, safe_integer n -> parseInt (number_to_string n) = Some n).
Proof.
  unfold offset_of, limit_of, parseInt_value.
  split; [intros req; split; by intros ->|].
  split; [intros req s Hs Hp; rewrite Hs; cbn [result_bind]; by rewrite Hp|].
  split; [intros req s Hs Hp; rewrite Hs; cbn [result_bind]; by rewrite Hp|].
  split; [|split; [|split; [|split; [|split]]]].
  - intros req s n Hs Hp _. rewrite Hs. cbn [result_bind]. rewrite Hp. cbn.
    by destruct (Z.eqb_spec n 0) as [->|].
  - intros req s n Hs Hp _. rewrite Hs. cbn [result_bind]. by rewrite Hp.
  - intros req e. split; by intros ->.
  - intros axios_get req st.
    fold (parseInt_value (offset_param req)) (parseInt_value (limit_param req)).
    fold (offset_of req) (limit_of req).
    rewrite list_handler_run. split; [by intros e ->|].
    split; [by intros e [o ->] ->|]. by intros offset limit -> ->.
  - intros q. fold (parseInt_value (offset_param (request_of q)))
      (parseInt_value (limit_param (request_of q))).
    split; [apply offset_of_request_of | apply limit_of_request_of].
  - intros n _. apply parseInt_number_to_string.
Qed.
(** ** The statements on the sample upstreams *)

(** The page of two creatures the sample catalogue serves. *)
Lemma api_pokemons_page_witness :
  exists count items,
    outcome (api_pokemons (serve catalogue) (Query None (Some "2"))) boot
    = Ok (page count items) /\
    length items = 2%nat /\
    count = VNum 1302.
Proof.
  assert (Hall :
            Forall
              (fun ref =>
                 is_ok (outcome (process_pokemon (serve catalogue) ref) boot))
              [reference "charmander" "https://pokeapi.co/api/v2/pokemon/4/";
               reference "squirtle" "https://pokeapi.co/api/v2/pokemon/7/"]).
  { constructor; [eexists; reflexivity|].
    constructor; [eexists; reflexivity|]. constructor. }
  destruct (api_pokemons_page (serve catalogue) (Query None (Some "2")) boot
              first_page _ eq_refl eq_refl Hall)
    as (count & items & Hcount & Hpage & _ & Hlen & _).
  exists count, items. split; [exact Hpage|]. split; [exact Hlen|].
  injection Hcount as <-. reflexivity.
Defined.

(** C1, as stated, fails: asked for one item, the route relays the two
    references an upstream that ignores the page size returns. *)
Lemma page_longer_than_limit :
  exists count items,
    outcome (api_pokemons (serve oversupplying) (Query (Some "0") (Some "1")))
            boot
    = Ok (page count items) /\
    ~ (Z.of_nat (length items) <= parse_limit (Query (Some "0") (Some "1"))).
Proof.
  eexists _, _. split; [vm_compute; reflexivity|].
  vm_compute. intros H. by apply H.
Qed.

(** A reference upstream does not serve, an unknown id, and a creature
    served without its species. *)
Lemma sub_fetch_failure_is_500_witness :
  outcome (api_pokemons (serve partly_served) (Query None None)) boot
  = Ok list_failure /\
  outcome (api_pokemon (serve catalogue) "9") boot = Ok (detail_failure "9") /\
  outcome (api_pokemon (serve no_species) "4") boot = Ok (detail_failure "4").
Proof.
  split; [|split].
  - destruct (sub_fetch_failure_is_500 (serve partly_served))
      as (_ & Hitem & Hsub & _).
    apply (Hitem (Query None None) boot
             (VObj [("count", VNum 2);
                    ("results",
                     VArr [reference "charmander"
                             "https://pokeapi.co/api/v2/pokemon/4/";
                           reference "missingno"
                             "https://pokeapi.co/api/v2/pokemon/0/"])])
             [reference "charmander" "https://pokeapi.co/api/v2/pokemon/4/";
              reference "missingno" "https://pokeapi.co/api/v2/pokemon/0/"]
             (reference "missingno" "https://pokeapi.co/api/v2/pokemon/0/")).
    + reflexivity.
    + reflexivity.
    + apply list_elem_of_further, list_elem_of_here.
    + apply (Hsub _ boot (VStr "0") "0"); [reflexivity | reflexivity |].
      left. exists AxiosError. reflexivity.
  - destruct (sub_fetch_failure_is_500 (serve catalogue)) as (_ & _ & _ & H).
    apply H. left. exists AxiosError. reflexivity.
  - destruct (sub_fetch_failure_is_500 (serve no_species)) as (_ & _ & _ & H).
    apply H. right. exists AxiosError. reflexivity.
Defined.

(** A creature with every sprite and one with the plain sprite only, as
    payloads and through the list route, and a creature without sprites. *)
Lemma image_selection_witness :
  (animated_image charmander = Ok (VStr "a4.gif") /\
   default_image charmander = Ok (VStr "art4.png")) /\
  (animated_image squirtle = Ok VNull /\
   default_image squirtle = Ok (VStr "f7.png")) /\
  (failed (animated_image ditto) /\ failed (default_image ditto)) /\
  failed
    (outcome
       (process_pokemon (serve spriteless)
          (reference "ditto" "https://pokeapi.co/api/v2/pokemon/132/"))
       boot) /\
  outcome (api_pokemons (serve spriteless) (Query None None)) boot
  = Ok list_failure /\
  (exists item,
      outcome
        (process_pokemon (serve catalogue)
           (reference "charmander" "https://pokeapi.co/api/v2/pokemon/4/"))
        boot
      = Ok item /\
      get_prop item "animatedImageUrl" = Ok (VStr "a4.gif") /\
      get_prop item "defaultImageUrl" = Ok (VStr "art4.png")) /\
  (exists item,
      outcome
        (process_pokemon (serve catalogue)
           (reference "squirtle" "https://pokeapi.co/api/v2/pokemon/7/"))
        boot
      = Ok item /\
      get_prop item "animatedImageUrl" = Ok VNull /\
      get_prop item "defaultImageUrl" = Ok (VStr "f7.png")).
Proof.
  destruct (image_selection (serve catalogue))
    as (Hchoice & Hnone & _ & _ & Hrecord).
  destruct (image_selection (serve spriteless))
    as (_ & _ & Hthrow & Hpage & _).
  assert (Hditto : without_sprites ditto) by (by intros sprites [= <-]).
  split; [|split; [|split; [|split; [|split; [|split]]]]].
  - apply (Hchoice charmander
             (VObj [("front_default", VStr "f4.png");
                    ("other",
                     VObj [("official-artwork",
                            VObj [("front_default", VStr "art4.png")])]);
                    ("versions",
                     VObj [("generation-v",
                            VObj [("black-white",
                                   VObj [("animated",
                                          VObj [("front_default",
                                                 VStr "a4.gif")])])])])]));
      reflexivity.
  - apply (Hchoice squirtle (VObj [("front_default", VStr "f7.png")]));
      reflexivity.
  - exact (Hnone ditto Hditto).
  - apply (Hthrow _ boot (VStr "132") "132" ditto); try reflexivity.
    exact Hditto.
  - apply (Hpage (Query None None) boot
             (VObj [("count", VNum 1);
                    ("results",
                     VArr [reference "ditto"
                             "https://pokeapi.co/api/v2/pokemon/132/"])])
             [reference "ditto" "https://pokeapi.co/api/v2/pokemon/132/"]
             (reference "ditto" "https://pokeapi.co/api/v2/pokemon/132/")
             (VStr "132") "132" ditto); try reflexivity.
    + apply list_elem_of_here.
    + exact Hditto.
  - destruct (outcome
                (process_pokemon (serve catalogue)
                   (reference "charmander"
                      "https://pokeapi.co/api/v2/pokemon/4/"))
                boot) as [item|] eqn:Hitem; [|discriminate].
    exists item. split; [reflexivity|].
    destruct (Hrecord _ _ _ Hitem)
      as (id & id_text & pokemonData & sprites & Hid & Htext & Hp & Hs & _
          & -> & ->).
    injection Hid as <-. injection Htext as <-. injection Hp as <-.
    by injection Hs as <-.
  - destruct (outcome
                (process_pokemon (serve catalogue)
                   (reference "squirtle"
                      "https://pokeapi.co/api/v2/pokemon/7/"))
                boot) as [item|] eqn:Hitem; [|discriminate].
    exists item. split; [reflexivity|].
    destruct (Hrecord _ _ _ Hitem)
      as (id & id_text & pokemonData & sprites & Hid & Htext & Hp & Hs & _
          & -> & ->).
    injection Hid as <-. injection Htext as <-. injection Hp as <-.
    by injection Hs as <-.
Defined.

(** C4, as stated, fails: upstream serves a primary-detail payload without
    [sprites]; the animated path is not present in it, yet
    [animatedImageUrl] is not [null] and no default image is chosen: both
    selections throw, and the page that lists the creature is answered
    500. *)
Lemma payload_without_sprites :
  serve spriteless (VStr "https://pokeapi.co/api/v2/pokemon/132") = Ok ditto /\
  get_prop ditto "sprites" = Ok VUndef /\
  animated_image ditto = Throw TypeError /\
  default_image ditto = Throw TypeError /\
  outcome (api_pokemons (serve spriteless) (Query None None)) boot
  = Ok list_failure.
Proof. repeat split; vm_compute; reflexivity. Qed.

(** Absent, non-numeric and numeric parameters, a repeated parameter, a
    nested one, and one that hides [toString]. *)
Lemma query_defaults_witness :
  offset_of (Request VUndef VUndef) = Ok 0 /\
  limit_of (Request VUndef (VStr "abc")) = Ok 20 /\
  offset_of (Request (VStr "40") VUndef) = Ok 40 /\
  limit_of (Request VUndef (VStr "50")) = Ok 50 /\
  offset_of (Request (VArr [VStr "7"; VStr "9"]) VUndef) = Ok 7 /\
  limit_of (Request VUndef (VObj [("a", VStr "1")])) = Ok 20 /\
  list_handler (serve catalogue)
    (Request (VObj [("toString", VStr "x")]) VUndef) boot
  = (boot, Throw TypeError) /\
  list_handler (serve catalogue) (Request (VStr "-5") VUndef) boot
  = list_answer (serve catalogue) (-5) 20 boot /\
  parseInt (number_to_string 1302) = Some 1302.
Proof.
  destruct query_defaults
    as (Habsent & Ho & Hl & Hon & Hln & Hthrow & Hrun & _ & Hround).
  split; [by apply (Habsent (Request VUndef VUndef))|].
  split; [by apply (Hl (Request VUndef (VStr "abc")) "abc")|].
  split; [apply (Hon (Request (VStr "40") VUndef) "40");
          [reflexivity | reflexivity | unfold safe_integer; lia]|].
  split; [apply (Hln (Request VUndef (VStr "50")) "50" 50);
          [reflexivity | reflexivity | unfold safe_integer; lia]|].
  split; [apply (Hon (Request (VArr [VStr "7"; VStr "9"]) VUndef) "7,9");
          [reflexivity | reflexivity | unfold safe_integer; lia]|].
  split; [by apply (Hl (Request VUndef (VObj [("a", VStr "1")]))
                      "[object Object]")|].
  split.
  { destruct (Hrun (serve catalogue)
                (Request (VObj [("toString", VStr "x")]) VUndef) boot)
      as (Hleft & _ & _).
    apply Hleft. by apply Hthrow. }
  split.
  { destruct (Hrun (serve catalogue) (Request (VStr "-5") VUndef) boot)
      as (_ & _ & Hused).
    by apply Hused. }
  apply Hround. unfold safe_integer. lia.
Defined.

(** C5, as stated, fails: the numeric parameter [limit=0] is not used, the
    default takes its place. *)
Lemma zero_limit_is_defaulted :
  parseInt_param (q_limit (Query None (Some "0"))) = Some 0 /\
  parse_limit (Query None (Some "0")) = 20.
Proof. split; reflexivity. Qed.

(** A species with a Korean name and one without, through both routes. *)
Lemma localized_name_witness :
  korean_name_of
    (VObj [("names", VArr [name_entry "en" "Charmander";
                           name_entry "ko" "Pairi"])])
  = Ok (VStr "Pairi") /\
  korean_name_of (VObj [("names", VArr [name_entry "en" "Squirtle"])])
  = Ok VUndef /\
  (exists item,
      outcome (process_pokemon (serve catalogue)
                 (reference "charmander" "https://pokeapi.co/api/v2/pokemon/4/"))
              boot = Ok item /\
      get_prop item "name" = Ok (VStr "Pairi")) /\
  (exists item,
      outcome (process_pokemon (serve catalogue)
                 (reference "squirtle" "https://pokeapi.co/api/v2/pokemon/7/"))
              boot = Ok item /\
      get_prop item "name" = Ok (VStr "squirtle")) /\
  (exists resp,
      outcome (api_pokemon (serve catalogue) "4") boot = Ok resp /\
      get_prop (body resp) "name" = Ok (VStr "Pairi")) /\
  (exists resp,
      outcome (api_pokemon (serve catalogue) "7") boot = Ok resp /\
      get_prop (body resp) "name" = Ok (VStr "squirtle")).
Proof.
  destruct (localized_name (serve catalogue))
    as (Hentry & Hnone & Hlist & Hdetail).
  split; [|split; [|split; [|split; [|split]]]].
  - apply (Hentry _ [name_entry "en" "Charmander"]
             (name_entry "ko" "Pairi") []).
    + reflexivity.
    + constructor; [|constructor].
      exists (VObj [("name", VStr "en")]), (VStr "en"). by repeat split.
    + exists (VObj [("name", VStr "ko")]). by split.
    + reflexivity.
  - apply (Hnone _ [name_entry "en" "Squirtle"]); [reflexivity|].
    constructor; [|constructor].
    exists (VObj [("name", VStr "en")]), (VStr "en"). by repeat split.
  - destruct (outcome (process_pokemon (serve catalogue)
                         (reference "charmander"
                            "https://pokeapi.co/api/v2/pokemon/4/")) boot)
      as [item|] eqn:Hitem; [|discriminate].
    exists item. split; [reflexivity|].
    destruct (Hlist _ _ _ Hitem)
      as (id & id_text & speciesData & localized & given & Hid & Htext & Hs
          & Hl & Hgiven & ->).
    injection Hid as <-. injection Htext as <-. injection Hs as <-.
    injection Hl as <-. by injection Hgiven as <-.
  - destruct (outcome (process_pokemon (serve catalogue)
                         (reference "squirtle"
                            "https://pokeapi.co/api/v2/pokemon/7/")) boot)
      as [item|] eqn:Hitem; [|discriminate].
    exists item. split; [reflexivity|].
    destruct (Hlist _ _ _ Hitem)
      as (id & id_text & speciesData & localized & given & Hid & Htext & Hs
          & Hl & Hgiven & ->).
    injection Hid as <-. injection Htext as <-. injection Hs as <-.
    injection Hl as <-. by injection Hgiven as <-.
  - destruct (outcome (api_pokemon (serve catalogue) "4") boot)
      as [resp|] eqn:Hresp; [|discriminate].
    exists resp. split; [reflexivity|].
    assert (H200 : status resp = 200%nat)
      by (vm_compute in Hresp; by injection Hresp as <-).
    destruct (Hdetail _ _ _ Hresp H200)
      as (pokemonData & speciesData & localized & own_name & Hp & Hs & Hl
          & Hown & ->).
    injection Hp as <-. injection Hs as <-. injection Hl as <-.
    by injection Hown as <-.
  - destruct (outcome (api_pokemon (serve catalogue) "7") boot)
      as [resp|] eqn:Hresp; [|discriminate].
    exists resp. split; [reflexivity|].
    assert (H200 : status resp = 200%nat)
      by (vm_compute in Hresp; by injection Hresp as <-).
    destruct (Hdetail _ _ _ Hresp H200)
      as (pokemonData & speciesData & localized & own_name & Hp & Hs & Hl
          & Hown & ->).
    injection Hp as <-. injection Hs as <-. injection Hl as <-.
    by injection Hown as <-.
Defined.

(** C6, as stated, fails: the species has an entry whose language is [ko],
    yet the display name of either route is the fallback, because that
    entry's name is empty. *)
Lemma empty_korean_name_falls_back :
  serve oddities (VStr "https://pokeapi.co/api/v2/pokemon-species/1")
  = Ok (VObj [("names", VArr [name_entry "ko" ""])]) /\
  has_language "ko" (name_entry "ko" "") /\
  get_prop (name_entry "ko" "") "name" = Ok (VStr "") /\
  (exists item,
      outcome (process_pokemon (serve oddities)
                 (reference "bulbasaur" "https://pokeapi.co/api/v2/pokemon/1/"))
              boot = Ok item /\
      get_prop item "name" = Ok (VStr "bulbasaur")) /\
  (exists resp,
      outcome (api_pokemon (serve oddities) "1") boot = Ok resp /\
      status resp = 200%nat /\
      get_prop (body resp) "name" = Ok (VStr "bulbasaur")).
Proof.
  split; [reflexivity|].
  split; [exists (VObj [("name", VStr "ko")]); by split|].
  split; [reflexivity|].
  split; eexists; (split; [vm_compute; reflexivity|]); by vm_compute.
Qed.

(** The detail of a creature, asked for after population: its name and
    the label of its type are the localized ones, its height and its sprites
    are upstream's. *)
Lemma detail_overrides_two_fields_witness :
  exists resp,
    outcome (api_pokemon (serve catalogue) "4") (Server loaded_cache [])
    = Ok resp /\
    get_prop (body resp) "name" = Ok (VStr "Pairi") /\
    get_prop (body resp) "types"
    = Ok (VArr [VObj [("englishName", VStr "fire");
                      ("koreanName", VStr "Bulkkot")]]) /\
    get_prop (body resp) "height" = Ok (VNum 6) /\
    get_prop (body resp) "sprites" = get_prop charmander "sprites".
Proof.
  destruct (outcome (api_pokemon (serve catalogue) "4")
              (Server loaded_cache []))
    as [resp|] eqn:Hresp; [|discriminate].
  exists resp. split; [reflexivity|].
  assert (H200 : status resp = 200%nat)
    by (vm_compute in Hresp; by injection Hresp as <-).
  destruct (detail_overrides_two_fields (serve catalogue) "4" _ resp
              Hresp H200)
    as (fields & speciesData & names & localized & upstream_types & types
        & Hfields & Hspecies & Hnames & Hfirst & Hup & Hname & Htypes & Hall
        & Hpass).
  injection Hfields as <-. injection Hspecies as <-. injection Hnames as <-.
  injection Hup as <-.
  split; [|split; [|split]].
  - rewrite Hname. f_equal.
    destruct Hfirst as [(pre & e & post & Hsplit & Hpre & Hko & He)|[Hall' _]].
    + destruct pre as [|x pre]; [injection Hsplit as <- _|].
      { by destruct Hko as (language & [= <-] & [=]). }
      destruct pre as [|y pre]; [|by destruct pre].
      injection Hsplit as _ <- _. by injection He as <-.
    + apply Forall_cons_1 in Hall' as [_ Hall'].
      apply Forall_cons_1 in Hall' as [(language & code & [= <-] & [= <-] & Hne) _].
      by destruct Hne.
  - rewrite Htypes. f_equal. f_equal.
    apply Forall2_cons_inv_l in Hall as (pair & rest & Hpair & Hrest & ->).
    apply Forall2_nil_inv_l in Hrest as ->. f_equal.
    destruct Hpair as (type & key & k & label & [= <-] & [= <-] & [= <-] & ->
                       & Hlabel).
    rewrite Hlabel; [reflexivity|]. by vm_compute.
  - by rewrite (Hpass "height").
  - by rewrite (Hpass "sprites").
Defined.

(** C7, as stated, fails: the detail of a creature whose type bears the name
    of a member every object inherits is answered 200 with a [koreanName]
    that is neither a label stored for the key (none is) nor the key, and
    with the payload's own name although the species has a [ko] entry. *)
Lemma detail_label_outside_cache :
  own (typeKoreanNames boot) !! "constructor" = None /\
  cached_label (typeKoreanNames boot) "constructor" (VStr "constructor")
  = VStr "constructor" /\
  has_language "ko" (name_entry "ko" "") /\
  (exists resp,
      outcome (api_pokemon (serve oddities) "1") boot = Ok resp /\
      status resp = 200%nat /\
      get_prop (body resp) "name" = Ok (VStr "bulbasaur") /\
      get_prop (body resp) "types"
      = Ok (VArr [VObj [("englishName", VStr "constructor");
                        ("koreanName",
                         VNative "Object.prototype.constructor")]])).
Proof.
  split; [reflexivity|]. split; [reflexivity|].
  split; [exists (VObj [("name", VStr "ko")]); by split|].
  eexists. split; [vm_compute; reflexivity|].
  repeat split; vm_compute; reflexivity.
Qed.


(** The labels of the sample catalogue are strings. *)
Lemma catalogue_string_labels : string_labels (serve catalogue).
Proof.
  intros url data v Hdata Hlabel Hv.
  destruct url as [| | | |u| | |]; try discriminate.
  unfold serve, catalogue in Hdata. cbn [assoc] in Hdata.
  repeat match type of Hdata with
         | context [if String.eqb ?a ?b then _ else _] =>
             destruct (String.eqb a b)
         end;
    try discriminate; injection Hdata as <-;
    vm_compute in Hlabel;
    first [discriminate
          | injection Hlabel as <-; first [discriminate | by eexists]].
Qed.

(** What the listed types of the sample catalogue store. *)
Lemma catalogue_stores (t : value) (k : string) (v : value) :
  t ∈ [reference "fire" "https://pokeapi.co/api/v2/type/10/";
       reference "water" "https://pokeapi.co/api/v2/type/11/"] ->
  stores (serve catalogue) t k v ->
  k = "fire" /\ v = VStr "Bulkkot".
Proof.
  intros Ht (url & data & name & Hu & Hd & Hl & Hv & Hn & Hk).
  apply elem_of_cons in Ht as [->|Ht].
  - injection Hu as <-. injection Hd as <-. injection Hl as <-.
    injection Hn as <-. by injection Hk as <-.
  - apply elem_of_cons in Ht as [->|Ht]; [|by apply elem_of_nil in Ht].
    injection Hu as <-. injection Hd as <-. injection Hl as <-.
    discriminate Hv.
Qed.

(** Loading the sample catalogue stores non-empty strings only and keeps
    the prototype of the cache, and a list request leaves the cache
    alone. *)
Lemma cache_written_by_population_only_witness :
  (forall k v, own loaded_cache !! k = Some v -> nonempty_string v) /\
  own loaded_cache !! "fire" = Some (VStr "Bulkkot") /\
  own loaded_cache !! "water" = None /\
  proto loaded_cache = ObjectPrototype /\
  typeKoreanNames
    (fst (api_pokemons (serve catalogue) (Query None (Some "2"))
            (Server loaded_cache [])))
  = loaded_cache.
Proof.
  unfold loaded_cache.
  destruct (cache_written_by_population_only (serve catalogue) reverse
              (fun l => reverse_Permutation l))
    as (Hfrom & Hstrings & Hkept & Hproto & Hlist & _).
  split; [|split; [|split; [|split]]].
  - apply (Hstrings catalogue_string_labels boot).
    intros k v Hk. cbn in Hk. by rewrite lookup_empty in Hk.
  - by vm_compute.
  - destruct (own (typeKoreanNames
                     (fst (loadTypeTranslations (serve catalogue) reverse
                             boot))) !! "water") as [v|] eqn:Hwater;
      [|reflexivity].
    destruct (Hfrom boot "water" v Hwater)
      as [Hin|(_ & data & types & type & Hd & Hr & Ht & Hst)].
    + cbn in Hin. by rewrite lookup_empty in Hin.
    + injection Hd as <-. injection Hr as <-.
      by destruct (catalogue_stores type "water" v Ht Hst).
  - rewrite Hproto; [reflexivity|].
    intros data types type v Hd Hr Ht Hst.
    injection Hd as <-. injection Hr as <-.
    by destruct (catalogue_stores type _ v Ht Hst).
  - by rewrite Hlist.
Defined.

(** C10, as stated, fails: upstream lists a category named [__proto__]
    whose [ko] label is an object, and a category whose [ko] label is the
    number 5.  Population stores the number, which is no string, and the
    object becomes the prototype of the cache without any entry being
    inserted for it: the key [water], never stored, reads [hacked]
    afterwards. *)
Lemma population_beyond_insertion :
  outcome (loadTypeTranslations (serve poisoned) reverse) boot = Ok tt /\
  console poisoned_start = [InitStart; InitDone 1] /\
  own (typeKoreanNames poisoned_start) !! "five" = Some (VNum 5) /\
  own (typeKoreanNames poisoned_start) !! "__proto__" = None /\
  own (typeKoreanNames poisoned_start) !! "water" = None /\
  proto (typeKoreanNames boot) = ObjectPrototype /\
  proto (typeKoreanNames poisoned_start)
  = ValuePrototype (VObj [("water", VStr "hacked")]) /\
  labelFor (typeKoreanNames boot) (VStr "water") = Ok (VStr "water") /\
  labelFor (typeKoreanNames poisoned_start) (VStr "water")
  = Ok (VStr "hacked").
Proof. repeat split; vm_compute; reflexivity. Qed.

(** C2.  At the failing input, a category key that names a member every
    object inherits: the key is absent from the cache, yet the lookup gives
    the inherited built-in and not the key; the list route then reports the
    built-in among the type labels and the detail route as [koreanName].
    The cache is the empty one here and the one a successful population
    leaves. *)
Theorem labelFor_inherited_member :
  own loaded_cache !! "fire" = Some (VStr "Bulkkot") /\
  own loaded_cache !! "constructor" = None /\
  labelFor loaded_cache (VStr "constructor")
  = Ok (VNative "Object.prototype.constructor") /\
  labelFor empty_cache (VStr "constructor")
  = Ok (VNative "Object.prototype.constructor") /\
  (exists count item,
      outcome (api_pokemons (serve oddities) (Query None None)) boot
      = Ok (page count [item]) /\
      get_prop item "types"
      = Ok (VArr [VNative "Object.prototype.constructor"])) /\
  (exists resp,
      outcome (api_pokemon (serve oddities) "1") boot = Ok resp /\
      status resp = 200%nat /\
      get_prop (body resp) "types"
      = Ok (VArr [VObj [("englishName", VStr "constructor");
                        ("koreanName",
                         VNative "Object.prototype.constructor")]])).
Proof.
  repeat split; try (vm_compute; reflexivity).
  - eexists _, _. split; vm_compute; reflexivity.
  - eexists. split; [vm_compute; reflexivity|]. split; vm_compute; reflexivity.
Qed.

(** C8.  At the failing input, an upstream whose type enumeration is
    rejected: population returns normally, leaves the cache empty and logs
    the failure, and the lookup of ["water"] gives ["water"]; but the lookup
    of a key that names an inherited member, ["toString"], gives the built-in
    instead of the key, and a later request relays it. *)
Theorem lookup_after_failed_population :
  serve oddities type_list_url = Throw AxiosError /\
  outcome (loadTypeTranslations (serve oddities) reverse) boot = Ok tt /\
  typeKoreanNames failed_start = empty_cache /\
  console failed_start = [InitStart; InitError AxiosError] /\
  labelFor (typeKoreanNames failed_start) (VStr "water") = Ok (VStr "water") /\
  labelFor (typeKoreanNames failed_start) (VStr "toString")
  = Ok (VNative "Object.prototype.toString") /\
  (exists resp,
      outcome (api_pokemon (serve oddities) "1") failed_start = Ok resp /\
      status resp = 200%nat /\
      get_prop (body resp) "types"
      = Ok (VArr [VObj [("englishName", VStr "constructor");
                        ("koreanName",
                         VNative "Object.prototype.constructor")]])).
Proof.
  repeat split; try (vm_compute; reflexivity).
  eexists. split; [vm_compute; reflexivity|]. split; vm_compute; reflexivity.
Qed.

(** * Further properties of the program *)

(** ** The cache as a table *)

Lemma cache_set_own_eq (c : cache) (k : string) (v : value) :
  k <> "__proto__" -> own (cache_set c k v) !! k = Some v.
Proof.
  intros Hk. unfold cache_set.
  apply String.eqb_neq in Hk. rewrite Hk. cbn [andb own].
  apply lookup_insert_eq.
Qed.

Lemma cache_set_own_ne (c : cache) (k k' : string) (v : value) :
  k <> k' -> own (cache_set c k v) !! k' = own c !! k'.
Proof.
  intros Hne. unfold cache_set.
  destruct (String.eqb k "__proto__" && reaches_proto_setter c).
  - by destruct v.
  - cbn [own]. by apply lookup_insert_ne.
Qed.

(** X1.  Storing a truthy label under a name other than [__proto__] makes
    the lookup of that name give the label, whatever the cache held, and
    leaves the lookup of every other name as it was.  Under the name
    [__proto__] a text is not stored at all in a cache that still has the
    prototype of an object literal and no own property of that name: the
    assignment reaches the setter of [Object.prototype], which ignores
    it. *)
Theorem store_then_lookup :
  (forall c k v,
      k <> "__proto__" -> truthy v = true ->
      labelFor (cache_set c k v) (VStr k) = Ok v) /\
  (forall c k v k',
      k <> "__proto__" -> k' <> k ->
      cache_get (cache_set c k v) k' = cache_get c k') /\
  (forall c s,
      own c !! "__proto__" = None -> proto c = ObjectPrototype ->
      cache_set c "__proto__" (VStr s) = c).
Proof.
  split; [|split].
  - intros c k v Hk Hv. apply labelFor_stored; [|exact Hv].
    by apply cache_set_own_eq.
  - intros c k v k' Hk Hne. unfold cache_get.
    rewrite cache_set_own_ne by done. by rewrite cache_set_proto.
  - intros c s Hown Hproto. unfold cache_set, reaches_proto_setter.
    by rewrite Hown, Hproto.
Qed.

(** ** Population, type by type *)

Section Population.

Variable axios_get : value -> result value.

Lemma load_type_stores (type : value) (k : string) (v : value) (st : server) :
  stores axios_get type k v ->
  typeKoreanNames (fst (load_type axios_get type st))
  = cache_set (typeKoreanNames st) k v.
Proof.
  intros (url & data & name & Hu & Hd & Hl & Hv & Hn & Hk).
  unfold load_type. unfold_js.
  rewrite Hu. cbn. rewrite Hd. cbn. rewrite Hl. cbn. rewrite Hv.
  rewrite Hn. cbn. by rewrite Hk.
Qed.

(** Once a key holds the one label the listed types agree on, it keeps it,
    and a listed type that stores under the key puts it there. *)
Lemma promise_all_load_stored (types : list value) (k : string) (v : value) :
  k <> "__proto__" ->
  (forall t v', t ∈ types -> stores axios_get t k v' -> v' = v) ->
  forall st,
    own (typeKoreanNames st) !! k = Some v \/
    (exists t, t ∈ types /\ stores axios_get t k v) ->
    own (typeKoreanNames
           (fst (promise_all (map (load_type axios_get) types) st))) !! k
    = Some v.
Proof.
  intros Hk. induction types as [|type types IH]; intros Hagree st Hhas.
  - destruct Hhas as [Hin|(t & Ht & _)]; [exact Hin|].
    by apply elem_of_nil in Ht.
  - cbn [map promise_all].
    assert (Hhead :
              own (typeKoreanNames (fst (load_type axios_get type st))) !! k
              = Some v \/
              exists t, t ∈ types /\ stores axios_get t k v).
    { destruct Hhas as [Hin|(t & Ht & Hst)].
      - left.
        destruct (load_type_effect axios_get type st)
          as [_ [->|(k0 & v0 & Hst0 & ->)]]; [exact Hin|].
        destruct (decide (k0 = k)) as [->|Hne].
        + rewrite (Hagree type v0 (list_elem_of_here _ _) Hst0).
          by apply cache_set_own_eq.
        + by rewrite cache_set_own_ne.
      - apply elem_of_cons in Ht as [->|Ht].
        + left. rewrite (load_type_stores _ _ _ st Hst).
          by apply cache_set_own_eq.
        + right. by exists t. }
    destruct (load_type axios_get type st) as [st1 r]. cbn [fst] in Hhead.
    assert (Hagree' : forall t v', t ∈ types -> stores axios_get t k v' -> v' = v).
    { intros t v' Ht. apply Hagree. by apply list_elem_of_further. }
    specialize (IH Hagree' st1 Hhead).
    by destruct (promise_all (map (load_type axios_get) types) st1).
Qed.

(** X2.  [loadTypeTranslations] never rejects, whatever upstream does, and
    writes to the console the start line and then exactly one closing line:
    either the number of entries the cache holds at that point, or the
    error. *)
Theorem loadTypeTranslations_never_rejects
        (settled : list value -> list value) (st : server) :
  outcome (loadTypeTranslations axios_get settled) st = Ok tt /\
  (console (fst (loadTypeTranslations axios_get settled st))
   = (console st
      ++ [InitStart;
          InitDone
            (size (own (typeKoreanNames
                          (fst (loadTypeTranslations axios_get settled st)))))])%list
   \/
   exists e,
     console (fst (loadTypeTranslations axios_get settled st))
     = (console st ++ [InitStart; InitError e])%list).
Proof.
  unfold loadTypeTranslations. unfold_js.
  destruct (axios_get type_list_url) as [data|e]; cbn.
  2:{ split; [reflexivity|]. right. exists e. by rewrite <- app_assoc. }
  destruct (get_prop data "results") as [v|e]; cbn.
  2:{ split; [reflexivity|]. right. exists e. by rewrite <- app_assoc. }
  destruct (as_array v) as [types|e]; cbn.
  2:{ split; [reflexivity|]. right. exists e. by rewrite <- app_assoc. }
  destruct (promise_all_load axios_get (settled types)
              (Server (typeKoreanNames st) (console st ++ [InitStart])))
    as (Hcon & _ & _).
  destruct (promise_all _ _) as [st2 [rs|e]]; cbn in *.
  - split; [reflexivity|]. left. rewrite Hcon. by rewrite <- app_assoc.
  - split; [reflexivity|]. right. exists e. rewrite Hcon.
    by rewrite <- app_assoc.
Qed.

(** With the enumeration served, the cache after population is the one the
    settled callbacks leave. *)
Lemma loadTypeTranslations_enumerated
      (settled : list value -> list value) (st : server)
      (data : value) (types : list value) :
  axios_get type_list_url = Ok data ->
  get_prop data "results" = Ok (VArr types) ->
  typeKoreanNames (fst (loadTypeTranslations axios_get settled st))
  = typeKoreanNames
      (fst (promise_all (map (load_type axios_get) (settled types))
              (Server (typeKoreanNames st) (console st ++ [InitStart])))).
Proof.
  intros Hdata Hres. unfold loadTypeTranslations. unfold_js.
  rewrite Hdata. cbn. rewrite Hres. cbn.
  by destruct (promise_all _ _) as [st2 [rs|e]].
Qed.

(** X3.  A listed type whose detail fetch succeeds and holds a truthy [ko]
    label ends up in the cache under its name, whatever happens to the
    fetches of the other types and in whatever order they settle, provided
    the name is not [__proto__] and the listed types that store under this
    name agree on the label. *)
Theorem population_survives_failed_types
        (settled : list value -> list value) (st : server)
        (data : value) (types : list value) (type : value)
        (k : string) (v : value) :
  (forall l, settled l ≡ₚ l) ->
  axios_get type_list_url = Ok data ->
  get_prop data "results" = Ok (VArr types) ->
  type ∈ types ->
  stores axios_get type k v ->
  k <> "__proto__" ->
  (forall t v', t ∈ types -> stores axios_get t k v' -> v' = v) ->
  own (typeKoreanNames (fst (loadTypeTranslations axios_get settled st))) !! k
  = Some v.
Proof.
  intros Hperm Hdata Hres Hin Hst Hk Hagree.
  rewrite (loadTypeTranslations_enumerated settled st data types Hdata Hres).
  apply promise_all_load_stored; [exact Hk | |].
  - intros t v' Ht. apply Hagree. by rewrite <- (Hperm types).
  - right. exists type. split; [by rewrite (Hperm types) | exact Hst].
Qed.



End Population.

(** ** The routes as a whole *)

Lemma not_array_failed (r : result value) :
  not_array r -> failed (let* v := r in as_array v).
Proof.
  intros Hr. destruct r as [v|e]; cbn; [|by exists e].
  destruct v; try (by exists TypeError). by destruct (Hr elems).
Qed.

Section Routes.

Variable axios_get : value -> result value.

(** Once the parameters are read, the list route answers in one of two
    ways. *)
Lemma list_answer_answers (offset limit : Z) (st : server) :
  (exists count items,
      outcome (list_answer axios_get offset limit) st = Ok (page count items) /\
      console (fst (list_answer axios_get offset limit st))
      = (console st ++ [ListRequest offset limit])%list) \/
  (outcome (list_answer axios_get offset limit) st = Ok list_failure /\
   exists e,
     console (fst (list_answer axios_get offset limit st))
     = (console st ++ [ListRequest offset limit; ListError e])%list).
Proof.
  unfold outcome. rewrite list_answer_run. cbv zeta.
  destruct (axios_get _) as [listData|e]; cbn [result_bind];
    [|right; split; [reflexivity|]; exists e; cbn; by rewrite <- app_assoc].
  destruct (get_prop listData "results") as [v|e]; cbn [result_bind];
    [|right; split; [reflexivity|]; exists e; cbn; by rewrite <- app_assoc].
  destruct (as_array v) as [items|e]; cbn [result_bind];
    [|right; split; [reflexivity|]; exists e; cbn; by rewrite <- app_assoc].
  destruct (outcome (promise_all _) _) as [processed|e]; cbn [result_bind];
    [|right; split; [reflexivity|]; exists e; cbn; by rewrite <- app_assoc].
  destruct (get_prop listData "count") as [count|e]; cbn [result_bind];
    [|right; split; [reflexivity|]; exists e; cbn; by rewrite <- app_assoc].
  left. by exists count, processed.
Qed.

(** X5.  [GET /api/pokemons] ends in one of three ways.  When the
    conversion of its [offset] parameter to text throws, or that of its
    [limit] parameter after it, the handler is left by that error before its
    [try]: nothing is logged and neither of its answers is sent.  Otherwise
    it answers: with a 200 page, the request line being the only thing
    written to the console, or with the 500 failure, the request line and
    then the error being written.  A request whose parameters are absent or
    texts is never of the first kind. *)
Theorem list_handler_outcomes :
  (forall req st,
      (exists e,
          (offset_of req = Throw e \/
           (is_ok (offset_of req) /\ limit_of req = Throw e)) /\
          list_handler axios_get req st = (st, Throw e)) \/
      (exists offset limit,
          offset_of req = Ok offset /\
          limit_of req = Ok limit /\
          ((exists count items,
               outcome (list_handler axios_get req) st
               = Ok (page count items) /\
               console (fst (list_handler axios_get req st))
               = (console st ++ [ListRequest offset limit])%list) \/
           (outcome (list_handler axios_get req) st = Ok list_failure /\
            exists e,
              console (fst (list_handler axios_get req st))
              = (console st
                 ++ [ListRequest offset limit; ListError e])%list)))) /\
  (forall q,
      offset_of (request_of q) = Ok (parse_offset q) /\
      limit_of (request_of q) = Ok (parse_limit q) /\
      forall st,
        list_handler axios_get (request_of q) st
        = api_pokemons axios_get q st).
Proof.
  split.
  - intros req st. unfold outcome. rewrite list_handler_run.
    destruct (offset_of req) as [offset|e] eqn:Ho.
    2:{ left. exists e. split; [by left | reflexivity]. }
    destruct (limit_of req) as [limit|e] eqn:Hl.
    2:{ left. exists e. split; [|reflexivity]. right.
        split; [by exists offset | reflexivity]. }
    right. exists offset, limit. split; [reflexivity|].
    split; [reflexivity|]. apply list_answer_answers.
  - intros q. split; [apply offset_of_request_of|].
    split; [apply limit_of_request_of|]. apply list_handler_request_of.
Qed.

(** X6.  [GET /api/pokemon/:id] never throws out of its handler and answers
    in one of two ways: with status 200, the request line being the only
    thing written to the console, or with the 500 failure naming the id,
    the request line and then the error with that id being written. *)
Theorem api_pokemon_always_answers (pokemonId : string) (st : server) :
  (exists r,
      outcome (api_pokemon axios_get pokemonId) st = Ok r /\
      status r = 200%nat /\
      console (fst (api_pokemon axios_get pokemonId st))
      = (console st
         ++ [DetailRequest (POKEAPI_BASE_URL +:+ "/pokemon/" +:+ pokemonId)])%list)
  \/
  (outcome (api_pokemon axios_get pokemonId) st
   = Ok (detail_failure pokemonId) /\
   exists e,
     console (fst (api_pokemon axios_get pokemonId st))
     = (console st
        ++ [DetailRequest (POKEAPI_BASE_URL +:+ "/pokemon/" +:+ pokemonId);
            DetailError pokemonId e])%list).
Proof.
  unfold outcome. rewrite api_pokemon_run. cbv zeta.
  destruct (detail_body axios_get (typeKoreanNames st) pokemonId)
    as [r|e] eqn:Hbody; cbn [fst snd console].
  - left. exists r. split; [reflexivity|]. split; [|reflexivity].
    by apply detail_body_inv in Hbody as (? & ? & ? & ? & _ & _ & _ & _ & ->).
  - right. split; [reflexivity|]. exists e. by rewrite <- app_assoc.
Qed.

(** X7.  Whether a request is answered with 200 or with 500 does not depend
    on the state of the server it meets: a request that arrives while the
    cache is empty, half filled or full gets the same status. *)
Theorem status_independent_of_cache :
  (forall q st st' r r',
      outcome (api_pokemons axios_get q) st = Ok r ->
      outcome (api_pokemons axios_get q) st' = Ok r' ->
      status r = status r') /\
  (forall pokemonId st st' r r',
      outcome (api_pokemon axios_get pokemonId) st = Ok r ->
      outcome (api_pokemon axios_get pokemonId) st' = Ok r' ->
      status r = status r').
Proof.
  split.
  - intros q st st' r r'. apply api_pokemons_status.
  - intros pokemonId st st' r r'. apply api_pokemon_status.
Qed.

(** X8.  The [types] of a record of the list route has one label per type
    of the primary-detail payload fetched for the identifier of the
    reference, in the order of the payload, each being what the lookup gives
    for the key of the entry at the same position. *)
Theorem list_labels_follow_upstream_order (ref : value) (st : server)
        (item : value) :
  outcome (process_pokemon axios_get ref) st = Ok item ->
  exists id id_text pokemonData upstream_types labels,
    id_of ref = Ok id /\
    to_string id = Ok id_text /\
    axios_get (VStr (POKEAPI_BASE_URL +:+ "/pokemon/" +:+ id_text))
      = Ok pokemonData /\
    get_prop pokemonData "types" = Ok (VArr upstream_types) /\
    get_prop item "types" = Ok (VArr labels) /\
    Forall2 (labelled_type (typeKoreanNames st)) upstream_types labels.
Proof.
  intros (id & id_text & pokemonData & ? & ? & ? & labels & ? & ? & Hid
          & Htext & Hp & _ & _ & _ & Ht & _ & _ & ->)%process_pokemon_inv.
  unfold type_labels in Ht.
  destruct (get_prop pokemonData "types") as [types|] eqn:Htypes;
    [|discriminate].
  cbn [result_bind] in Ht.
  destruct types as [| | | | |upstream_types| |]; try discriminate.
  cbn [as_array result_bind] in Ht.
  exists id, id_text, pokemonData, upstream_types, labels.
  split; [exact Hid|]. split; [exact Htext|].
  split; [exact Hp|]. split; [exact Htypes|]. split; [reflexivity|].
  apply array_map_Forall2 in Ht.
  eapply Forall2_impl; [exact Ht|]. cbn beta. intros typeInfo label Hl.
  destruct (get_prop typeInfo "type") as [type|] eqn:E1; [|discriminate].
  cbn [result_bind] in Hl.
  destruct (get_prop type "name") as [key|] eqn:E2; [|discriminate].
  cbn [result_bind] in Hl. by exists type, key.
Qed.

(** X9.  A payload of the wrong shape is answered like a failed fetch: a
    reference list whose [results] is not an array gives the 500 of the list
    route; a species payload whose [names] is not an array, or a
    primary-detail payload whose [types] is not an array, makes the
    processing of a reference throw and gives the 500 of the detail route. *)
Theorem malformed_payload_is_500 :
  (forall q st listData,
      axios_get (VStr (list_url (parse_offset q) (parse_limit q)))
        = Ok listData ->
      not_array (get_prop listData "results") ->
      outcome (api_pokemons axios_get q) st = Ok list_failure) /\
  (forall ref st id id_text pokemonData speciesData,
      id_of ref = Ok id ->
      to_string id = Ok id_text ->
      axios_get (VStr (POKEAPI_BASE_URL +:+ "/pokemon/" +:+ id_text))
        = Ok pokemonData ->
      axios_get (VStr (POKEAPI_BASE_URL +:+ "/pokemon-species/" +:+ id_text))
        = Ok speciesData ->
      not_array (get_prop speciesData "names") \/
      not_array (get_prop pokemonData "types") ->
      failed (outcome (process_pokemon axios_get ref) st)) /\
  (forall pokemonId st pokemonData speciesData,
      axios_get (VStr (POKEAPI_BASE_URL +:+ "/pokemon/" +:+ pokemonId))
        = Ok pokemonData ->
      axios_get (VStr (POKEAPI_BASE_URL +:+ "/pokemon-species/" +:+ pokemonId))
        = Ok speciesData ->
      not_array (get_prop speciesData "names") \/
      not_array (get_prop pokemonData "types") ->
      outcome (api_pokemon axios_get pokemonId) st
      = Ok (detail_failure pokemonId)).
Proof.
  split; [|split].
  - intros q st listData Hlist Hres.
    unfold outcome. rewrite api_pokemons_run. cbv zeta.
    rewrite Hlist. cbn [result_bind].
    destruct (not_array_failed _ Hres) as [e He]. revert He.
    destruct (get_prop listData "results") as [v|]; cbn [result_bind];
      [|reflexivity].
    by intros ->.
  - intros ref st id id_text pokemonData speciesData Hid Htext Hp Hs Hbad.
    unfold process_pokemon. unfold_js.
    rewrite Hid. cbn. rewrite Htext. cbn. rewrite Hp. cbn. rewrite Hs. cbn.
    unfold korean_name_of, type_labels.
    destruct Hbad as [Hbad|Hbad];
      destruct (not_array_failed _ Hbad) as [e He]; revert He.
    + destruct (get_prop speciesData "names") as [v|]; cbn [result_bind];
        [|by eexists].
      intros ->. by eexists.
    + intros He.
      destruct (result_bind (get_prop speciesData "names") _) as [localized|];
        cbn; [|by eexists].
      destruct (if truthy localized then _ else _); cbn; [|by eexists].
      destruct (get_prop pokemonData "types") as [v|]; cbn [result_bind] in *;
        [|by eexists].
      rewrite He. by eexists.
  - intros pokemonId st pokemonData speciesData Hp Hs Hbad.
    unfold outcome. rewrite api_pokemon_run. cbv zeta.
    unfold detail_body. rewrite Hp, Hs. cbn [result_bind].
    unfold korean_name_of, type_pairs.
    destruct Hbad as [Hbad|Hbad];
      destruct (not_array_failed _ Hbad) as [e He]; revert He.
    + destruct (get_prop speciesData "names") as [v|]; cbn [result_bind];
        [|reflexivity].
      by intros ->.
    + intros He.
      destruct (result_bind (get_prop speciesData "names") _) as [localized|];
        cbn [result_bind]; [|reflexivity].
      destruct (if truthy localized then _ else _); cbn [result_bind];
        [|reflexivity].
      destruct (get_prop pokemonData "types") as [v|]; cbn [result_bind] in *;
        [|reflexivity].
      by rewrite He.
Qed.

End Routes.

(** ** Identifiers and numerals *)

Lemma split_slash_nonempty (s : string) : split_slash s <> [].
Proof.
  induction s as [|c r IH]; cbn; [done|].
  destruct (Ascii.eqb c "/"); [done|]. by destruct (split_slash r).
Qed.

Lemma split_slash_app (x y : string) :
  split_slash (x +:+ String "/" y) = (split_slash x ++ split_slash y)%list.
Proof.
  induction x as [|c x IH]; [reflexivity|].
  change (String c x +:+ String "/" y) with (String c (x +:+ String "/" y)).
  cbn [split_slash]. rewrite IH.
  destruct (Ascii.eqb c "/"); [reflexivity|].
  pose proof (split_slash_nonempty x) as Hx.
  by destruct (split_slash x).
Qed.

Lemma split_slash_segment (s : string) :
  no_slash s = true -> split_slash s = [s].
Proof.
  induction s as [|c r IH]; cbn; [reflexivity|].
  destruct (Ascii.eqb c "/"); [discriminate|]. cbn. intros Hr.
  by rewrite (IH Hr).
Qed.

(** X10.  The identifier of a reference is the segment of its URL before the
    last slash: [a] for a URL that ends in [/a/b] ([b] being empty when the
    URL has a trailing slash).  A URL without any slash leaves the
    identifier [undefined], and a reference whose [url] is not a text makes
    the extraction throw. *)
Theorem id_of_url_segment :
  (forall ref prefix a b,
      get_prop ref "url" = Ok (VStr (prefix +:+ "/" +:+ a +:+ "/" +:+ b)) ->
      no_slash a = true -> no_slash b = true ->
      id_of ref = Ok (VStr a)) /\
  (forall ref s,
      get_prop ref "url" = Ok (VStr s) -> no_slash s = true ->
      id_of ref = Ok VUndef) /\
  (forall ref v,
      get_prop ref "url" = Ok v -> (forall s, v <> VStr s) ->
      failed (id_of ref)).
Proof.
  split; [|split].
  - intros ref prefix a b Hurl Ha Hb. unfold id_of. rewrite Hurl.
    cbn [result_bind as_string].
    change (prefix +:+ "/" +:+ a +:+ "/" +:+ b)
      with (prefix +:+ String "/" (a +:+ String "/" b)).
    rewrite !split_slash_app, (split_slash_segment a Ha),
      (split_slash_segment b Hb).
    change ([a] ++ [b])%list with [a; b].
    rewrite length_app. cbn [length]. rewrite Nat.add_comm. cbn [Nat.add].
    by rewrite (list_lookup_middle _ _ _ (length (split_slash prefix))).
  - intros ref s Hurl Hs. unfold id_of. rewrite Hurl.
    cbn [result_bind as_string]. by rewrite (split_slash_segment s Hs).
  - intros ref v Hurl Hv. unfold id_of. rewrite Hurl. cbn [result_bind].
    destruct v; try (by exists TypeError). by destruct (Hv s).
Qed.

Lemma append_cons (c : ascii) (s r : string) :
  String c s +:+ r = String c (s +:+ r).
Proof. reflexivity. Qed.

Lemma leading_digits_cons (c : ascii) (s : string) (v : Z) :
  digit_value 10 c = Some v ->
  leading_digits 10 (String c s) = v :: leading_digits 10 s.
Proof. intros H. cbn [leading_digits]. by rewrite H. Qed.

Lemma leading_digits_uint_app (d : Decimal.uint) (rest : string) :
  ends_numeral rest = true ->
  leading_digits 10 (NilEmpty.string_of_uint d +:+ rest) = uint_digits d.
Proof.
  intros Hrest.
  induction d as [|d IH|d IH|d IH|d IH|d IH|d IH|d IH|d IH|d IH|d IH];
    [| cbn [NilEmpty.string_of_uint uint_digits];
       rewrite append_cons; erewrite leading_digits_cons by reflexivity;
       rewrite IH; reflexivity ..].
  destruct rest as [|c r]; [reflexivity|].
  cbn [ends_numeral] in Hrest.
  change (NilEmpty.string_of_uint Decimal.Nil +:+ String c r)
    with (String c r).
  cbn [leading_digits uint_digits].
  by destruct (digit_value 10 c).
Qed.

Lemma trim_start_digit_app (d : Decimal.uint) (rest : string) :
  d <> Decimal.Nil ->
  trim_start (NilEmpty.string_of_uint d +:+ rest)
  = NilEmpty.string_of_uint d +:+ rest.
Proof.
  intros Hd.
  destruct d; try congruence; cbn [NilEmpty.string_of_uint];
    rewrite append_cons;
    destruct (NilEmpty.string_of_uint d +:+ rest) as [|c2 [|c3 r3]];
    reflexivity.
Qed.

Lemma strip_sign_digit_app (d : Decimal.uint) (rest : string) :
  d <> Decimal.Nil ->
  strip_sign (NilEmpty.string_of_uint d +:+ rest)
  = (1, NilEmpty.string_of_uint d +:+ rest).
Proof. intros Hd. destruct d; try congruence; reflexivity. Qed.

Lemma strip_hex_prefix_zero (rest : string) :
  ends_numeral rest = true ->
  strip_hex_prefix (String "0" rest) = (10, String "0" rest).
Proof.
  destruct rest as [|c r]; [reflexivity|].
  destruct c as [[] [] [] [] [] [] [] []]; cbn; try discriminate; reflexivity.
Qed.

Lemma strip_hex_prefix_digit_app (d : Decimal.uint) (rest : string) :
  d <> Decimal.Nil ->
  ends_numeral rest = true ->
  strip_hex_prefix (NilEmpty.string_of_uint d +:+ rest)
  = (10, NilEmpty.string_of_uint d +:+ rest).
Proof.
  intros Hd Hrest.
  destruct d as [|d|d|d|d|d|d|d|d|d|d]; try congruence; try reflexivity.
  destruct d; try reflexivity. by apply strip_hex_prefix_zero.
Qed.

Lemma parse_digits_value (sign : Z) (d : Decimal.uint) :
  d <> Decimal.Nil ->
  match uint_digits d with
  | [] => None
  | ds => Some (sign * digits_value 10 ds)
  end = Some (sign * Z.of_N (Pos.of_uint d)).
Proof.
  intros Hd. rewrite <- digits_value_uint.
  destruct d; try congruence; reflexivity.
Qed.

Lemma parse_numeral_app (sign : Z) (d : Decimal.uint) (rest : string) :
  d <> Decimal.Nil ->
  ends_numeral rest = true ->
  (let '(radix, s2) :=
     strip_hex_prefix (NilEmpty.string_of_uint d +:+ rest) in
   match leading_digits radix s2 with
   | [] => None
   | ds => Some (sign * digits_value radix ds)
   end) = Some (sign * Z.of_N (Pos.of_uint d)).
Proof.
  intros Hd Hrest. rewrite strip_hex_prefix_digit_app by done.
  rewrite leading_digits_uint_app by done.
  by apply parse_digits_value.
Qed.

Lemma parseInt_numeral_then_text (n : Z) (rest : string) :
  ends_numeral rest = true ->
  parseInt (number_to_string n +:+ rest) = Some n.
Proof.
  intros Hrest. unfold number_to_string, parseInt.
  destruct n as [|p|p].
  - cbn [Z.to_int NilZero.string_of_int NilZero.string_of_uint].
    change ("0" +:+ rest)
      with (NilEmpty.string_of_uint (Decimal.D0 Decimal.Nil) +:+ rest).
    rewrite trim_start_digit_app, strip_sign_digit_app by done.
    by rewrite (parse_numeral_app 1) by done.
  - pose proof (DecimalPos.Unsigned.to_uint_nonnil p) as Hp.
    cbn [Z.to_int NilZero.string_of_int]. rewrite (nilzero_nonnil _ Hp).
    rewrite trim_start_digit_app, strip_sign_digit_app by done.
    rewrite (parse_numeral_app 1) by done.
    by rewrite DecimalPos.Unsigned.of_to.
  - pose proof (DecimalPos.Unsigned.to_uint_nonnil p) as Hp.
    cbn [Z.to_int NilZero.string_of_int]. rewrite (nilzero_nonnil _ Hp).
    rewrite append_cons, trim_start_minus. cbn [strip_sign].
    rewrite (parse_numeral_app (-1)) by done.
    by rewrite DecimalPos.Unsigned.of_to.
Qed.

(** X11.  The route reads the integer at the start of a query parameter and
    ignores what follows it: a decimal numeral followed by text that does
    not go on with a digit (nor with the [x] of a hexadecimal prefix) is
    used as that numeral, so [offset=40abc] asks for offset 40; a blank
    before the numeral is skipped. *)
Theorem numeral_prefix_is_used :
  (forall n rest,
      safe_integer n -> ends_numeral rest = true ->
      parseInt (number_to_string n +:+ rest) = Some n) /\
  (forall n rest limit,
      safe_integer n -> ends_numeral rest = true ->
      parse_offset (Query (Some (number_to_string n +:+ rest)) limit) = n) /\
  (forall s, parseInt (" " +:+ s) = parseInt s).
Proof.
  split; [|split].
  - intros n rest _. apply parseInt_numeral_then_text.
  - intros n rest limit _ Hrest. unfold parse_offset, parseInt_param.
    cbn [q_offset default from_option]. unfold id.
    rewrite (parseInt_numeral_then_text n rest Hrest). cbn.
    by destruct (Z.eqb_spec n 0).
  - reflexivity.
Qed.

(** ** The page and the list route together *)

(** X12.  The request the page makes for its page [n] is understood by the
    route as asked: offset [20 n] and limit 20, which are the numbers
    written into the upstream URL. *)
Theorem page_request_is_understood (currentPageToFetch : Z) :
  safe_integer (currentPageToFetch * LIMIT) ->
  parse_offset (request_query currentPageToFetch) = currentPageToFetch * 20 /\
  parse_limit (request_query currentPageToFetch) = 20 /\
  list_url (parse_offset (request_query currentPageToFetch))
           (parse_limit (request_query currentPageToFetch))
  = POKEAPI_BASE_URL +:+ "/pokemon?offset="
      +:+ number_to_string (currentPageToFetch * 20) +:+ "&limit=20".
Proof.
  intros _.
  assert (Ho : parse_offset (request_query currentPageToFetch)
               = currentPageToFetch * 20).
  { unfold parse_offset, request_query, parseInt_param, LIMIT.
    cbn [q_offset default from_option]. unfold id.
    rewrite parseInt_number_to_string. cbn.
    by destruct (Z.eqb_spec (currentPageToFetch * 20) 0). }
  assert (Hl : parse_limit (request_query currentPageToFetch) = 20)
    by reflexivity.
  split; [exact Ho|]. split; [exact Hl|].
  unfold list_url. by rewrite Ho, Hl.
Qed.

Lemma array_filter_sublist (p : value -> result bool) (l r : list value) :
  array_filter p l = Ok r ->
  sublist r l /\ Forall (fun x => p x = Ok true) r.
Proof.
  revert r. induction l as [|x l IH]; cbn [array_filter]; intros r.
  - intros [= <-]. split; constructor.
  - destruct (p x) as [b|] eqn:Hb; [|discriminate]. cbn [result_bind].
    destruct (array_filter p l) as [rest|]; [|discriminate].
    cbn [result_bind]. intros [= <-].
    destruct (IH rest eq_refl) as [Hsub Hall].
    destruct b; split; try done.
    + by apply sublist_skip.
    + by constructor.
    + by apply sublist_cons.
Qed.

Lemma array_some_false (p : value -> result bool) (l : list value) :
  array_some p l = Ok false -> Forall (fun x => p x = Ok false) l.
Proof.
  induction l as [|x l IH]; cbn [array_some]; [constructor|].
  destruct (p x) as [[]|] eqn:Hp; cbn [result_bind]; try discriminate.
  intros H. constructor; [exact Hp | by apply IH].
Qed.

(** X13.  Adding a fetched page never removes or reorders what is on
    display: the result is the creatures on display followed by some of the
    fetched ones, in their fetched order, each with an [id] that differs
    from every [id] on display. *)
Theorem add_new_keeps_shown (oldPokemons : list value) (newPokemons : value)
        (merged : list value) :
  add_new_pokemons oldPokemons newPokemons = Ok merged ->
  exists fetched added,
    newPokemons = VArr fetched /\
    merged = (oldPokemons ++ added)%list /\
    sublist added fetched /\
    Forall (differs_from_all oldPokemons) added.
Proof.
  unfold add_new_pokemons.
  destruct newPokemons as [| | | | |fetched| |]; try discriminate.
  cbn [as_array result_bind].
  destruct (array_filter _ fetched) as [added|] eqn:Hf; [|discriminate].
  cbn [result_bind]. intros [= <-].
  exists fetched, added. split; [reflexivity|]. split; [reflexivity|].
  apply array_filter_sublist in Hf as [Hsub Hall].
  split; [exact Hsub|].
  eapply Forall_impl; [exact Hall|]. cbn beta. intros newPoke Hkeep.
  destruct (array_some _ oldPokemons) as [[]|] eqn:Hsome; try discriminate.
  apply array_some_false in Hsome.
  eapply Forall_impl; [exact Hsome|]. cbn beta. intros oldPoke Hcmp.
  destruct (get_prop oldPoke "id") as [old_id|]; [|discriminate].
  cbn [result_bind] in Hcmp.
  destruct (get_prop newPoke "id") as [new_id|]; [|discriminate].
  cbn [result_bind] in Hcmp. exists old_id, new_id.
  by injection Hcmp as ->.
Qed.

Lemma array_some_ids (oldPokemons : list value) (ids : list string)
      (newPoke : value) (s : string) :
  Forall2 has_string_id oldPokemons ids ->
  has_string_id newPoke s ->
  array_some
    (fun oldPoke =>
       let* old_id := get_prop oldPoke "id" in
       let* new_id := get_prop newPoke "id" in
       Ok (strict_eq old_id new_id))
    oldPokemons
  = Ok (bool_decide (s ∈ ids)).
Proof.
  intros Hold Hnew. induction Hold as [|o so old ids Ho _ IH].
  - reflexivity.
  - cbn [array_some]. unfold has_string_id in Ho, Hnew.
    rewrite Ho. cbn [result_bind]. rewrite Hnew at 1.
    cbn [result_bind strict_eq].
    destruct (String.eqb_spec so s) as [->|Hne].
    + f_equal. symmetry. apply bool_decide_eq_true. apply list_elem_of_here.
    + rewrite IH. f_equal. apply bool_decide_ext.
      rewrite elem_of_cons. split; [by right|].
      intros [Heq|Hin]; [by destruct Hne | exact Hin].
Qed.

Lemma array_filter_ids (oldPokemons : list value) (ids : list string)
      (fetched : list value) (fetched_ids : list string) :
  Forall2 has_string_id oldPokemons ids ->
  Forall2 has_string_id fetched fetched_ids ->
  exists added,
    array_filter
      (fun newPoke =>
         let* shown :=
           array_some
             (fun oldPoke =>
                let* old_id := get_prop oldPoke "id" in
                let* new_id := get_prop newPoke "id" in
                Ok (strict_eq old_id new_id))
             oldPokemons in
         Ok (negb shown))
      fetched
    = Ok added /\
    Forall2 has_string_id added (filter (fun s => s ∉ ids) fetched_ids).
Proof.
  intros Hold Hnew. induction Hnew as [|n s l idl Hn _ [added [Hf Hids]]].
  - exists []. split; [reflexivity | constructor].
  - cbn [array_filter]. rewrite (array_some_ids _ _ _ _ Hold Hn).
    cbn [result_bind]. rewrite Hf. cbn [result_bind].
    destruct (decide (s ∈ ids)) as [Hin|Hout].
    + rewrite (bool_decide_eq_true_2 _ Hin). cbn [negb].
      exists added. split; [reflexivity|].
      by rewrite filter_cons_False by (intros H; by apply H).
    + rewrite (bool_decide_eq_false_2 _ Hout). cbn [negb].
      exists (n :: added). split; [reflexivity|].
      rewrite filter_cons_True by done. by constructor.
Qed.

(** X14.  When the creatures on display have pairwise distinct text ids and
    so have the fetched ones, the update succeeds and the result has
    pairwise distinct ids again: exactly the ids on display and the fetched
    ids. *)
Theorem add_new_no_duplicates (oldPokemons fetched : list value)
        (ids fetched_ids : list string) :
  Forall2 has_string_id oldPokemons ids ->
  Forall2 has_string_id fetched fetched_ids ->
  NoDup ids ->
  NoDup fetched_ids ->
  exists merged merged_ids,
    add_new_pokemons oldPokemons (VArr fetched) = Ok merged /\
    Forall2 has_string_id merged merged_ids /\
    NoDup merged_ids /\
    (forall s, s ∈ merged_ids <-> s ∈ ids \/ s ∈ fetched_ids).
Proof.
  intros Hold Hnew Hnd Hndf.
  destruct (array_filter_ids _ _ _ _ Hold Hnew) as (added & Hf & Hids).
  exists (oldPokemons ++ added)%list,
    (ids ++ filter (fun s => s ∉ ids) fetched_ids)%list.
  split; [|split; [|split]].
  - unfold add_new_pokemons. cbn [as_array result_bind]. by rewrite Hf.
  - by apply Forall2_app.
  - apply NoDup_app. split; [exact Hnd|]. split.
    + intros s Hs [Hout _]%list_elem_of_filter. by apply Hout.
    + by apply NoDup_filter.
  - intros s. rewrite elem_of_app, list_elem_of_filter.
    destruct (decide (s ∈ ids)); tauto.
Qed.

Lemma filter_all_out (P : string -> Prop) `{forall s, Decision (P s)}
      (l : list string) :
  (forall s, s ∈ l -> ~ P s) -> filter P l = [].
Proof.
  induction l as [|s l IH]; intros Hout; [reflexivity|].
  rewrite filter_cons_False by (apply Hout, list_elem_of_here).
  apply IH. intros s' Hs'. apply Hout. by apply list_elem_of_further.
Qed.

(** X15.  A page that is delivered a second time adds nothing: with text
    ids throughout, applying the update again with the same fetched
    creatures gives the same list. *)
Theorem add_new_same_page_twice (oldPokemons fetched : list value)
        (ids fetched_ids : list string) (merged : list value) :
  Forall2 has_string_id oldPokemons ids ->
  Forall2 has_string_id fetched fetched_ids ->
  add_new_pokemons oldPokemons (VArr fetched) = Ok merged ->
  add_new_pokemons merged (VArr fetched) = Ok merged.
Proof.
  intros Hold Hnew Hm.
  destruct (array_filter_ids _ _ _ _ Hold Hnew) as (added & Hf & Hids).
  assert (Hmerged : merged = (oldPokemons ++ added)%list).
  { revert Hm. unfold add_new_pokemons. cbn [as_array result_bind].
    rewrite Hf. cbn [result_bind]. by intros [= <-]. }
  assert (Hall : Forall2 has_string_id merged
                   (ids ++ filter (fun s => s ∉ ids) fetched_ids)%list).
  { rewrite Hmerged. by apply Forall2_app. }
  destruct (array_filter_ids _ _ _ _ Hall Hnew) as (again & Hf' & Hids').
  assert (Hnone :
            filter
              (fun s => s ∉ (ids ++ filter (fun s => s ∉ ids) fetched_ids)%list)
              fetched_ids = []).
  { apply filter_all_out. intros s Hin Hout. apply Hout.
    rewrite elem_of_app, list_elem_of_filter.
    destruct (decide (s ∈ ids)); tauto. }
  unfold add_new_pokemons. cbn [as_array result_bind]. rewrite Hf'.
  cbn [result_bind]. rewrite Hnone in Hids'.
  apply Forall2_nil_inv_r in Hids' as ->. by rewrite app_nil_r.
Qed.

(** ** The picture of a card *)

Section Display.

Variable axios_get : value -> result value.

(** X16.  The picture the page shows for a record of the list route is
    chosen among the sprites of the primary-detail payload fetched for it:
    the animated sprite when one is present, else the official artwork when
    one is present, else whatever [front_default] holds.  The record the
    page holds is the one the route made, as far as these two fields are
    read. *)
Theorem shown_image (ref : value) (st : server) (item pokemon : value) :
  outcome (process_pokemon axios_get ref) st = Ok item ->
  get_prop pokemon "animatedImageUrl" = get_prop item "animatedImageUrl" ->
  get_prop pokemon "defaultImageUrl" = get_prop item "defaultImageUrl" ->
  exists id id_text pokemonData sprites,
    id_of ref = Ok id /\
    to_string id = Ok id_text /\
    axios_get (VStr (POKEAPI_BASE_URL +:+ "/pokemon/" +:+ id_text))
      = Ok pokemonData /\
    get_prop pokemonData "sprites" = Ok sprites /\
    image_src pokemon = Ok (shown_choice sprites).
Proof.
  intros (id & id_text & pokemonData & ? & ? & ? & ? & a & d & Hid & Htext
          & Hp & _ & _ & _ & _ & Ha & Hd & ->)%process_pokemon_inv
         Hanimated Hdefault.
  destruct (animated_image_sprites _ _ Ha) as (sprites & Hs & Hn).
  rewrite (animated_image_spec _ _ Hs Hn) in Ha.
  rewrite (default_image_spec _ _ Hs Hn) in Hd.
  injection Ha as <-. injection Hd as <-.
  exists id, id_text, pokemonData, sprites.
  split; [exact Hid|]. split; [exact Htext|]. split; [exact Hp|].
  split; [exact Hs|].
  unfold image_src. rewrite Hanimated, Hdefault.
  change (get_prop (VObj _) "animatedImageUrl")
    with (Ok (animated_choice sprites)).
  change (get_prop (VObj _) "defaultImageUrl")
    with (Ok (default_choice sprites)).
  cbn [result_bind].
  unfold animated_choice, shown_choice, present. cbv zeta.
  destruct (truthy (path_get sprites animated_path)) eqn:Ht.
  - by rewrite Ht.
  - reflexivity.
Qed.

End Display.

(** ** The further statements on sample inputs *)

(** A label stored in the empty cache, another name looked up, and a text
    assigned to [__proto__]. *)
Lemma store_then_lookup_witness :
  labelFor (cache_set empty_cache "fire" (VStr "Bulkkot")) (VStr "fire")
  = Ok (VStr "Bulkkot") /\
  cache_get (cache_set empty_cache "fire" (VStr "Bulkkot")) "water"
  = cache_get empty_cache "water" /\
  cache_set empty_cache "__proto__" (VStr "Bulkkot") = empty_cache.
Proof.
  destruct store_then_lookup as (Hstored & Hother & Hproto).
  split; [apply Hstored; [discriminate | reflexivity]|].
  split; [apply Hother; discriminate|].
  apply Hproto; reflexivity.
Defined.

(** Only the second of the two listed types is served; its label is
    stored. *)
Lemma population_survives_failed_types_witness :
  own (typeKoreanNames
         (fst (loadTypeTranslations (serve one_type_down) reverse boot)))
    !! "fire"
  = Some (VStr "Bulkkot").
Proof.
  apply (population_survives_failed_types (serve one_type_down) reverse boot
           (VObj [("count", VNum 2);
                  ("results",
                   VArr [reference "water" "https://pokeapi.co/api/v2/type/11/";
                         reference "fire"
                           "https://pokeapi.co/api/v2/type/10/"])])
           [reference "water" "https://pokeapi.co/api/v2/type/11/";
            reference "fire" "https://pokeapi.co/api/v2/type/10/"]
           (reference "fire" "https://pokeapi.co/api/v2/type/10/")).
  - exact reverse_Permutation.
  - reflexivity.
  - reflexivity.
  - apply list_elem_of_further, list_elem_of_here.
  - eexists _, _, _. repeat split; reflexivity.
  - discriminate.
  - intros t v' Ht (url & data & name & Hu & Hd & Hl & _ & _ & _).
    apply elem_of_cons in Ht as [->|Ht].
    + injection Hu as <-. discriminate Hd.
    + apply elem_of_cons in Ht as [->|Ht]; [|by apply elem_of_nil in Ht].
      injection Hu as <-. injection Hd as <-. by injection Hl as <-.
Defined.


(** The same list request and the same detail request, before and after
    population. *)
Lemma status_independent_of_cache_witness :
  (exists r r',
      outcome (api_pokemons (serve catalogue) (Query None (Some "2"))) boot
      = Ok r /\
      outcome (api_pokemons (serve catalogue) (Query None (Some "2")))
              (Server loaded_cache [])
      = Ok r' /\
      status r = status r') /\
  (exists r r',
      outcome (api_pokemon (serve catalogue) "4") boot = Ok r /\
      outcome (api_pokemon (serve catalogue) "4") (Server loaded_cache [])
      = Ok r' /\
      status r = status r').
Proof.
  destruct (status_independent_of_cache (serve catalogue)) as [Hlist Hdetail].
  split.
  - destruct (outcome (api_pokemons (serve catalogue) (Query None (Some "2")))
                boot) as [r|] eqn:Hr; [|discriminate].
    destruct (outcome (api_pokemons (serve catalogue) (Query None (Some "2")))
                (Server loaded_cache [])) as [r'|] eqn:Hr'; [|discriminate].
    exists r, r'. split; [reflexivity|]. split; [reflexivity|].
    exact (Hlist _ _ _ _ _ Hr Hr').
  - destruct (outcome (api_pokemon (serve catalogue) "4") boot)
      as [r|] eqn:Hr; [|discriminate].
    destruct (outcome (api_pokemon (serve catalogue) "4")
                (Server loaded_cache [])) as [r'|] eqn:Hr'; [|discriminate].
    exists r, r'. split; [reflexivity|]. split; [reflexivity|].
    exact (Hdetail _ _ _ _ _ Hr Hr').
Defined.

(** A request whose [offset] hides [toString], a served page, and a page
    with a reference upstream does not serve. *)
Lemma list_handler_outcomes_witness :
  list_handler (serve catalogue)
    (Request (VObj [("toString", VStr "x")]) VUndef) boot
  = (boot, Throw TypeError) /\
  (exists count items,
      outcome (list_handler (serve catalogue) (Request VUndef (VStr "2")))
              boot
      = Ok (page count items) /\
      console (fst (list_handler (serve catalogue)
                      (Request VUndef (VStr "2")) boot))
      = [ListRequest 0 2]) /\
  (outcome (list_handler (serve partly_served) (Request VUndef VUndef)) boot
   = Ok list_failure /\
   console (fst (list_handler (serve partly_served)
                   (Request VUndef VUndef) boot))
   = [ListRequest 0 20; ListError AxiosError]).
Proof.
  split; [|split].
  - destruct (proj1 (list_handler_outcomes (serve catalogue))
                (Request (VObj [("toString", VStr "x")]) VUndef) boot)
      as [(e & Hwhy & Hrun)|(offset & limit & Ho & _)];
      [|discriminate Ho].
    rewrite Hrun.
    destruct Hwhy as [He|[_ He]]; [|discriminate He].
    vm_compute in He. by injection He as <-.
  - destruct (proj1 (list_handler_outcomes (serve catalogue))
                (Request VUndef (VStr "2")) boot)
      as [(e & [He|[_ He]] & _)|(offset & limit & Ho & Hl & Hanswer)];
      [discriminate He | discriminate He |].
    vm_compute in Ho, Hl. injection Ho as <-. injection Hl as <-.
    destruct Hanswer as [(count & items & Hout & Hcon)|[Hout _]];
      [|vm_compute in Hout; discriminate Hout].
    by exists count, items.
  - destruct (proj1 (list_handler_outcomes (serve partly_served))
                (Request VUndef VUndef) boot)
      as [(e & [He|[_ He]] & _)|(offset & limit & Ho & Hl & Hanswer)];
      [discriminate He | discriminate He |].
    vm_compute in Ho, Hl. injection Ho as <-. injection Hl as <-.
    destruct Hanswer as [(count & items & Hout & _)|[Hout (e & Hcon)]];
      [vm_compute in Hout; discriminate Hout|].
    split; [exact Hout|]. rewrite Hcon. vm_compute in Hcon.
    by injection Hcon as <-.
Defined.

(** The record of a creature of one type, made after population. *)
Lemma list_labels_follow_upstream_order_witness :
  exists item,
    outcome
      (process_pokemon (serve catalogue)
         (reference "charmander" "https://pokeapi.co/api/v2/pokemon/4/"))
      (Server loaded_cache [])
    = Ok item /\
    exists labels,
      get_prop item "types" = Ok (VArr labels) /\
      Forall2 (labelled_type loaded_cache) [type_slot "fire"] labels.
Proof.
  destruct (outcome
              (process_pokemon (serve catalogue)
                 (reference "charmander"
                    "https://pokeapi.co/api/v2/pokemon/4/"))
              (Server loaded_cache [])) as [item|] eqn:Hitem; [|discriminate].
  exists item. split; [reflexivity|].
  destruct (list_labels_follow_upstream_order (serve catalogue) _ _ _ Hitem)
    as (id & id_text & pokemonData & upstream_types & labels & Hid & Htext
        & Hp & Htypes & Hlabels & Hall).
  injection Hid as <-. injection Htext as <-. injection Hp as <-.
  injection Htypes as <-.
  by exists labels.
Defined.

(** A reference list without [results] and a species whose [names] is a
    text. *)
Lemma malformed_payload_is_500_witness :
  outcome (api_pokemons (serve malformed) (Query None None)) boot
  = Ok list_failure /\
  failed
    (outcome
       (process_pokemon (serve malformed)
          (reference "charmander" "https://pokeapi.co/api/v2/pokemon/4/"))
       boot) /\
  outcome (api_pokemon (serve malformed) "4") boot = Ok (detail_failure "4").
Proof.
  destruct (malformed_payload_is_500 (serve malformed))
    as (Hlist & Hitem & Hdetail).
  split; [|split].
  - apply (Hlist (Query None None) boot (VObj [("count", VNum 0)]));
      [reflexivity|].
    intros l. discriminate.
  - apply (Hitem _ boot (VStr "4") "4" charmander
             (VObj [("names", VStr "none")]));
      try reflexivity.
    left. intros l. discriminate.
  - apply (Hdetail "4" boot charmander (VObj [("names", VStr "none")]));
      try reflexivity.
    left. intros l. discriminate.
Defined.

(** The URL of a reference as upstream writes it, one without a slash, and
    a [url] that is a number. *)
Lemma id_of_url_segment_witness :
  id_of (reference "charmander" "https://pokeapi.co/api/v2/pokemon/4/")
  = Ok (VStr "4") /\
  id_of (reference "charmander" "nowhere") = Ok VUndef /\
  failed (id_of (VObj [("name", VStr "charmander"); ("url", VNum 4)])).
Proof.
  destruct id_of_url_segment as (Hsegment & Hnone & Hthrow).
  split; [|split].
  - apply (Hsegment _ "https://pokeapi.co/api/v2/pokemon" "4" "");
      reflexivity.
  - apply (Hnone _ "nowhere"); reflexivity.
  - apply (Hthrow _ (VNum 4)); [reflexivity|]. intros s. discriminate.
Defined.

(** [offset=40abc] and a blank before the numeral. *)
Lemma numeral_prefix_is_used_witness :
  parseInt "40abc" = Some 40 /\
  parse_offset (Query (Some "40abc") None) = 40 /\
  parseInt " 7" = parseInt "7".
Proof.
  destruct numeral_prefix_is_used as (Hprefix & Hoffset & Hblank).
  assert (Hsafe : safe_integer 40) by (unfold safe_integer; lia).
  split; [exact (Hprefix 40 "abc" Hsafe eq_refl)|].
  split; [exact (Hoffset 40 "abc" None Hsafe eq_refl)|].
  exact (Hblank "7").
Defined.

(** The third page the page asks for. *)
Lemma page_request_is_understood_witness :
  parse_offset (request_query 2) = 40 /\
  parse_limit (request_query 2) = 20 /\
  list_url (parse_offset (request_query 2)) (parse_limit (request_query 2))
  = "https://pokeapi.co/api/v2/pokemon?offset=40&limit=20".
Proof.
  assert (Hsafe : safe_integer (2 * LIMIT))
    by (unfold safe_integer, LIMIT; lia).
  exact (page_request_is_understood 2 Hsafe).
Defined.

(** Two cards on display and a fetched page that repeats one of them. *)
Lemma add_new_keeps_shown_witness :
  exists fetched added,
    VArr fetched_cards = VArr fetched /\
    [card "1" "Isanghaessi"; card "4" "Pairi"; card "7" "Kkobugi"]
    = (shown_cards ++ added)%list /\
    sublist added fetched /\
    Forall (differs_from_all shown_cards) added.
Proof.
  apply (add_new_keeps_shown shown_cards (VArr fetched_cards)). reflexivity.
Defined.

Lemma add_new_no_duplicates_witness :
  exists merged merged_ids,
    add_new_pokemons shown_cards (VArr fetched_cards) = Ok merged /\
    Forall2 has_string_id merged merged_ids /\
    NoDup merged_ids /\
    (forall s, s ∈ merged_ids <-> s ∈ ["1"; "4"] \/ s ∈ ["4"; "7"]).
Proof.
  apply (add_new_no_duplicates shown_cards fetched_cards).
  - repeat constructor.
  - repeat constructor.
  - apply (bool_decide_unpack _). vm_compute. exact I.
  - apply (bool_decide_unpack _). vm_compute. exact I.
Defined.

Lemma add_new_same_page_twice_witness :
  add_new_pokemons
    [card "1" "Isanghaessi"; card "4" "Pairi"; card "7" "Kkobugi"]
    (VArr fetched_cards)
  = Ok [card "1" "Isanghaessi"; card "4" "Pairi"; card "7" "Kkobugi"].
Proof.
  apply (add_new_same_page_twice shown_cards fetched_cards
           ["1"; "4"] ["4"; "7"]).
  - repeat constructor.
  - repeat constructor.
  - reflexivity.
Defined.

(** The card of a creature with an animated sprite and the card of one with
    the plain sprite only. *)
Lemma shown_image_witness :
  (exists item,
      outcome
        (process_pokemon (serve catalogue)
           (reference "charmander" "https://pokeapi.co/api/v2/pokemon/4/"))
        boot
      = Ok item /\
      image_src item = Ok (VStr "a4.gif")) /\
  (exists item,
      outcome
        (process_pokemon (serve catalogue)
           (reference "squirtle" "https://pokeapi.co/api/v2/pokemon/7/"))
        boot
      = Ok item /\
      image_src item = Ok (VStr "f7.png")).
Proof.
  split.
  - destruct (outcome
                (process_pokemon (serve catalogue)
                   (reference "charmander"
                      "https://pokeapi.co/api/v2/pokemon/4/"))
                boot) as [item|] eqn:Hitem; [|discriminate].
    exists item. split; [reflexivity|].
    destruct (shown_image (serve catalogue) _ _ _ item Hitem eq_refl eq_refl)
      as (id & id_text & pokemonData & sprites & Hid & Htext & Hp & Hs & ->).
    injection Hid as <-. injection Htext as <-. injection Hp as <-.
    by injection Hs as <-.
  - destruct (outcome
                (process_pokemon (serve catalogue)
                   (reference "squirtle"
                      "https://pokeapi.co/api/v2/pokemon/7/"))
                boot) as [item|] eqn:Hitem; [|discriminate].
    exists item. split; [reflexivity|].
    destruct (shown_image (serve catalogue) _ _ _ item Hitem eq_refl eq_refl)
      as (id & id_text & pokemonData & sprites & Hid & Htext & Hp & Hs & ->).
    injection Hid as <-. injection Htext as <-. injection Hp as <-.
    by injection Hs as <-.
Defined.
